(** * remote-rig: the LED command handler of [hardware-service/main.py]

    The handler [set_led] turns the integer of a request body into one of two
    text lines, encodes the line and hands it to the serial port object [ser]
    with one [write] and one [flush], then answers with a small dictionary.

    The development has two parts.  The first embeds the Python values the
    handler computes with (integers, strings of code points, byte strings,
    exceptions), the handler itself as a program over the two calls it makes
    on [ser], and three ways of running such programs: sequentially over any
    serial driver, over a driver with a clock, and as concurrent requests
    interleaved call by call.  The second part states and proves the
    properties. *)

From Stdlib Require Import ZArith NArith List String Ascii Bool Lia.
From Stdlib Require Import Permutation.
From Stdlib Require DecimalString.
From Stdlib.Strings Require Import Byte.
Import ListNotations.

Set Implicit Arguments.
Open Scope list_scope.

(* ================================================================== *)
(** * Part I: the embedding *)
(* ================================================================== *)

(** ** Python values *)

Module Py.

(** A [str] is a sequence of Unicode code points, a [bytes] a sequence of
    octets.  A Python [int] is unbounded: it is a [Z]. *)
Definition codepoint := N.
Definition str := list codepoint.
Definition bytes := list byte.

(** The exceptions that can reach [set_led]: the one [str.encode] raises and
    those of the serial library ([PortNotOpenError] and
    [SerialTimeoutException] are its subclasses of [SerialException]). *)
Inductive exn : Type :=
| UnicodeEncodeError
| PortNotOpenError
| SerialTimeoutException
| SerialException (errno : Z).

(** A string literal of the source, character by character. *)
Definition lit (s : string) : str :=
  map N_of_ascii (list_ascii_of_string s).

(** The line feed, written [\n] in the source. *)
Definition LF : ascii := "010"%char.
Definition nl : string := String LF EmptyString.

(** Truth value of an integer, as tested by [... if n else ...]. *)
Definition bool_of_int (n : Z) : bool := negb (n =? 0)%Z.

(** [format(n, "")], what a replacement field [{n}] of an f-string inserts
    for an integer: the decimal numeral, with a minus sign when negative. *)
Definition format_int (n : Z) : str :=
  lit (DecimalString.NilZero.string_of_int (Z.to_int n)).

(** [c.isspace()] for one code point. *)
Definition isspace (c : codepoint) : bool :=
  ((0x09 <=? c) && (c <=? 0x0D)
   || (0x1C <=? c) && (c <=? 0x20)
   || (c =? 0x85) || (c =? 0xA0) || (c =? 0x1680)
   || (0x2000 <=? c) && (c <=? 0x200A)
   || (c =? 0x2028) || (c =? 0x2029) || (c =? 0x202F)
   || (c =? 0x205F) || (c =? 0x3000))%N.

Fixpoint lstrip (s : str) : str :=
  match s with
  | [] => []
  | c :: s' => if isspace c then lstrip s' else s
  end.

Definition rstrip (s : str) : str := rev (lstrip (rev s)).

(** [s.strip()]: white space removed at both ends. *)
Definition strip (s : str) : str := rstrip (lstrip s).

(** *** UTF-8 *)

Definition octet (n : N) : byte :=
  match Byte.of_N n with
  | Some b => b
  | None => x00
  end.

(** A continuation octet carrying six bits of [c], taken [sh] bits up. *)
Definition cont (c : codepoint) (sh : N) : byte :=
  octet (N.lor 0x80 (N.land (N.shiftr c sh) 0x3F)).

(** One code point in UTF-8; surrogates and values past U+10FFFF have no
    encoding. *)
Definition utf8_codepoint (c : codepoint) : option bytes :=
  (if c <? 0x80 then Some [octet c]
   else if c <? 0x800 then
     Some [octet (N.lor 0xC0 (N.shiftr c 6)); cont c 0]
   else if (0xD800 <=? c) && (c <=? 0xDFFF) then None
   else if c <? 0x10000 then
     Some [octet (N.lor 0xE0 (N.shiftr c 12)); cont c 6; cont c 0]
   else if c <? 0x110000 then
     Some [octet (N.lor 0xF0 (N.shiftr c 18)); cont c 12; cont c 6; cont c 0]
   else None)%N.

(** [s.encode("utf-8")]. *)
Fixpoint encode_utf8 (s : str) : exn + bytes :=
  match s with
  | [] => inr []
  | c :: s' =>
      match utf8_codepoint c, encode_utf8 s' with
      | Some bs, inr rest => inr (bs ++ rest)
      | None, _ => inl UnicodeEncodeError
      | _, inl e => inl e
      end
  end.

(** *** Dictionaries

    A dictionary literal, in the order its items are written. *)
Definition dict := list (str * str).

Definition str_eqb (a b : str) : bool :=
  if list_eq_dec N.eq_dec a b then true else false.

Fixpoint get (d : dict) (key : str) : option str :=
  match d with
  | [] => None
  | (k, v) :: d' => if str_eqb k key then Some v else get d' key
  end.

End Py.

(** ** The calls made on the serial port object, and programs over them *)

Inductive call : Type :=
| Write (data : Py.bytes)
| Flush.

(** A handler's body, as far as the port sees it: it returns, raises, or makes
    a call on [ser] and goes on with the call's result.  [ser.write] returns
    the number of octets written. *)
Inductive prog (A : Type) : Type :=
| Return (a : A)
| Raise (e : Py.exn)
| SerWrite (data : Py.bytes) (k : N -> prog A)
| SerFlush (k : prog A).

Arguments Raise {A} e.

Fixpoint bind {A B : Type} (m : prog A) (f : A -> prog B) : prog B :=
  match m with
  | Return a => f a
  | Raise e => Raise e
  | SerWrite data k => SerWrite data (fun n => bind (k n) f)
  | SerFlush k => SerFlush (bind k f)
  end.

Declare Scope prog_scope.
Delimit Scope prog_scope with prog.
Notation "x <- m ;; k" := (bind m (fun x => k))
  (at level 61, m at next level, right associativity) : prog_scope.
Notation "m ;; k" := (bind m (fun _ => k))
  (at level 61, right associativity) : prog_scope.

Definition ser_write (data : Py.bytes) : prog N := SerWrite data (@Return N).
Definition ser_flush : prog unit := SerFlush (Return tt).

(** A Python expression that may raise. *)
Definition eval {A : Type} (r : Py.exn + A) : prog A :=
  match r with
  | inl e => Raise e
  | inr a => Return a
  end.

(** ** The serial configuration and the request model *)

Definition SERIAL_PORT : string := "/dev/tty.usbmodem11202".
Definition BAUD_RATE : Z := 115200.

(** The settings of a [serial.Serial] object that matter here.  Time-outs are
    in seconds; [None] stands for Python's [None], no time-out. *)
Record SerialConfig : Type := {
  cfg_port : string;
  cfg_baudrate : Z;
  cfg_timeout : option Z;
  cfg_write_timeout : option Z
}.

(** [serial.Serial(port, baudrate, timeout=t)]: the keyword [write_timeout] is
    not passed and keeps the library's default, [None]. *)
Definition Serial (port : string) (baudrate : Z) (timeout : option Z)
  : SerialConfig :=
  {| cfg_port := port;
     cfg_baudrate := baudrate;
     cfg_timeout := timeout;
     cfg_write_timeout := None |}.

Definition ser : SerialConfig := Serial SERIAL_PORT BAUD_RATE (Some 1%Z).

Record LedCommand : Type := { state : Z }.

(** ** The handler *)

(** [state = 1 if cmd.state else 0] *)
Definition normalized_state (cmd : LedCommand) : Z :=
  if Py.bool_of_int cmd.(state) then 1%Z else 0%Z.

(** The f-string [f"LED {state}\n"] for a value of [state]. *)
Definition wire_line (st : Z) : Py.str :=
  Py.lit "LED " ++ Py.format_int st ++ Py.lit Py.nl.

(** [command_str = f"LED {state}\n"] *)
Definition command_str (cmd : LedCommand) : Py.str :=
  wire_line (normalized_state cmd).

Definition set_led (cmd : LedCommand) : prog Py.dict :=
  (data <- eval (Py.encode_utf8 (command_str cmd)) ;;
   ser_write data ;;
   ser_flush ;;
   Return [(Py.lit "status", Py.lit "ok");
           (Py.lit "sent", Py.strip (command_str cmd))])%prog.

(** The two values of [state], after the specification's names. *)
Definition Off : Z := 0%Z.
Definition On : Z := 1%Z.

(** The acknowledgement [set_led] builds for a command. *)
Definition acknowledgement (cmd : LedCommand) : Py.dict :=
  [(Py.lit "status", Py.lit "ok");
   (Py.lit "sent", Py.strip (command_str cmd))].

(** The octets [command_str.encode("utf-8")] evaluates to ([encode_command_str]
    below shows the encoding never raises on a command string). *)
Definition wire_bytes (cmd : LedCommand) : Py.bytes :=
  match Py.encode_utf8 (command_str cmd) with
  | inr data => data
  | inl _ => []
  end.

(** A byte string literal. *)
Definition octets (s : string) : Py.bytes := list_byte_of_string s.

(** ** Serial drivers and the sequential run of a program

    The serial library is outside the repository: a driver gives, for a state
    of the port, what [write] and [flush] return or raise and the state they
    leave.  Nothing is assumed about a driver. *)

Record Driver (port : Type) : Type := {
  drv_write : Py.bytes -> port -> port * (Py.exn + N);
  drv_flush : port -> port * (Py.exn + unit)
}.

(** The port together with the record of the calls made on it so far. *)
Record world (port : Type) : Type := {
  device : port;
  calls : list call
}.

Definition called {port : Type} (w : world port) (c : call) (dev : port)
  : world port :=
  {| device := dev; calls := calls w ++ [c] |}.

(** A program run to its end: the world it leaves and its result, the value
    returned or the exception that escapes.  There is no handler in
    [set_led], so an exception ends the run where it is raised. *)
Fixpoint run {port A : Type} (d : Driver port) (p : prog A) (w : world port)
  : world port * (Py.exn + A) :=
  match p with
  | Return a => (w, inr a)
  | Raise e => (w, inl e)
  | SerWrite data k =>
      match drv_write d data (device w) with
      | (dev, inr n) => run d (k n) (called w (Write data) dev)
      | (dev, inl e) => (called w (Write data) dev, inl e)
      end
  | SerFlush k =>
      match drv_flush d (device w) with
      | (dev, inr _) => run d k (called w Flush dev)
      | (dev, inl e) => (called w Flush dev, inl e)
      end
  end.

(** *** A simulated port

    An output buffer in front of a wire, and a script of faults: each call on
    an open port takes the head of the script and raises it if it is an
    exception. *)
Module Sim.

Record port : Type := {
  is_open : bool;
  out_buffer : Py.bytes;
  wire : Py.bytes;
  faults : list (option Py.exn)
}.

Definition next_fault (p : port) : option Py.exn * port :=
  match faults p with
  | [] => (None, p)
  | f :: fs =>
      (f, {| is_open := is_open p; out_buffer := out_buffer p;
             wire := wire p; faults := fs |})
  end.

Definition write (data : Py.bytes) (p : port) : port * (Py.exn + N) :=
  if is_open p then
    match next_fault p with
    | (Some e, p') => (p', inl e)
    | (None, p') =>
        ({| is_open := true; out_buffer := out_buffer p' ++ data;
            wire := wire p'; faults := faults p' |},
         inr (N.of_nat (List.length data)))
    end
  else (p, inl Py.PortNotOpenError).

Definition flush (p : port) : port * (Py.exn + unit) :=
  if is_open p then
    match next_fault p with
    | (Some e, p') => (p', inl e)
    | (None, p') =>
        ({| is_open := true; out_buffer := [];
            wire := wire p' ++ out_buffer p'; faults := faults p' |},
         inr tt)
    end
  else (p, inl Py.PortNotOpenError).

Definition driver : Driver port :=
  {| drv_write := write; drv_flush := flush |}.

Definition opened (buffer sent : Py.bytes) (script : list (option Py.exn))
  : port :=
  {| is_open := true; out_buffer := buffer; wire := sent;
     faults := script |}.

(** An open port with nothing sent yet and the given script. *)
Definition fresh (script : list (option Py.exn)) : world port :=
  {| device := opened [] [] script; calls := [] |}.

End Sim.

(** *** A port with a clock

    The write time-out of the serial library, in whole seconds: the device
    needs [stall] seconds to take the octets of a write.  Without a write
    time-out, [write] blocks until they are taken; with a time-out [t] it
    raises [SerialTimeoutException] once [t] seconds have passed without
    that.  The read time-out plays no part in a write. *)
Module Timed.

Record port : Type := {
  clock : Z;
  stall : Z;
  taken : Py.bytes
}.

Definition wait (secs : Z) (p : port) : port :=
  {| clock := clock p + secs; stall := stall p; taken := taken p |}.

Definition accept (data : Py.bytes) (p : port) : port :=
  {| clock := clock p + stall p; stall := stall p;
     taken := taken p ++ data |}.

Definition write (cfg : SerialConfig) (data : Py.bytes) (p : port)
  : port * (Py.exn + N) :=
  match cfg_write_timeout cfg with
  | None => (accept data p, inr (N.of_nat (List.length data)))
  | Some t =>
      if (stall p <=? t)%Z
      then (accept data p, inr (N.of_nat (List.length data)))
      else (wait t p, inl Py.SerialTimeoutException)
  end.

Definition flush (p : port) : port * (Py.exn + unit) := (p, inr tt).

Definition driver (cfg : SerialConfig) : Driver port :=
  {| drv_write := write cfg; drv_flush := flush |}.

Definition start (secs : Z) : world port :=
  {| device := {| clock := 0; stall := secs; taken := [] |};
     calls := [] |}.

End Timed.

(** ** Concurrent requests

    The web framework runs a plain [def] handler on worker threads, so two
    requests may be inside [set_led] at once.  A pool holds what is left of
    each request's body; a schedule names, step by step, the thread that makes
    its next call on [ser].  One call on [ser] is one step: the model
    interleaves calls, it does not split one [write] in two. *)
Module Conc.

Record event : Type := {
  ev_thread : nat;
  ev_call : call;
  ev_ok : bool
}.

Record world (port : Type) : Type := {
  device : port;
  trace : list event
}.

Definition record {port : Type} (w : world port) (i : nat) (c : call)
  (ok : bool) (dev : port) : world port :=
  {| device := dev;
     trace := trace w ++ [{| ev_thread := i; ev_call := c; ev_ok := ok |}] |}.

(** Thread [i] makes its next call; a thread that has returned or raised
    stays as it is. *)
Definition step_thread {port A : Type} (d : Driver port) (i : nat)
  (p : prog A) (w : world port) : prog A * world port :=
  match p with
  | SerWrite data k =>
      match drv_write d data (device w) with
      | (dev, inr n) => (k n, record w i (Write data) true dev)
      | (dev, inl e) => (Raise e, record w i (Write data) false dev)
      end
  | SerFlush k =>
      match drv_flush d (device w) with
      | (dev, inr _) => (k, record w i Flush true dev)
      | (dev, inl e) => (Raise e, record w i Flush false dev)
      end
  | _ => (p, w)
  end.

Fixpoint replace {A : Type} (i : nat) (x : A) (l : list A) : list A :=
  match l, i with
  | [], _ => []
  | _ :: l', O => x :: l'
  | y :: l', S j => y :: replace j x l'
  end.

Definition step {port A : Type} (d : Driver port) (i : nat)
  (pool : list (prog A)) (w : world port) : list (prog A) * world port :=
  match nth_error pool i with
  | Some p =>
      let (p', w') := step_thread d i p w in (replace i p' pool, w')
  | None => (pool, w)
  end.

Fixpoint run_sched {port A : Type} (d : Driver port) (sched : list nat)
  (pool : list (prog A)) (w : world port) : list (prog A) * world port :=
  match sched with
  | [] => (pool, w)
  | i :: sched' =>
      let (pool', w') := step d i pool w in run_sched d sched' pool' w'
  end.

(** The octets that reached the port, in order: the data of every write
    that succeeded. *)
Definition stream (tr : list event) : Py.bytes :=
  flat_map (fun ev =>
              match ev_call ev with
              | Write data => if ev_ok ev then data else []
              | Flush => []
              end) tr.

(** Mutual exclusion of write-then-flush, read off a trace: from a thread's
    successful write to its flush no other thread makes a call.  [holder]
    is the thread that has written and not flushed yet. *)
Fixpoint exclusive_from (holder : option nat) (tr : list event) : bool :=
  match tr with
  | [] => true
  | ev :: tr' =>
      let next :=
        match ev_call ev with
        | Write _ => if ev_ok ev then Some (ev_thread ev) else None
        | Flush => None
        end in
      match holder with
      | None => exclusive_from next tr'
      | Some h =>
          if Nat.eqb h (ev_thread ev) then exclusive_from next tr'
          else false
      end
  end.

Definition mutually_exclusive (tr : list event) : bool :=
  exclusive_from None tr.

Definition fresh {port : Type} (dev : port) : world port :=
  {| device := dev; trace := [] |}.

(** Where a request for [cmd] can be in the body of [set_led], and whether
    its write has succeeded by then. *)
Inductive at_point (cmd : LedCommand) : bool -> prog Py.dict -> Prop :=
| at_start : at_point cmd false (set_led cmd)
| at_flush : at_point cmd true (SerFlush (Return (acknowledgement cmd)))
| at_return : at_point cmd true (Return (acknowledgement cmd))
| at_write_raised (e : Py.exn) : at_point cmd false (Raise e)
| at_flush_raised (e : Py.exn) : at_point cmd true (Raise e).

(** The streams two requests can have produced, by which of their writes
    have succeeded. *)
Definition whole_lines (a b : bool) (l1 l2 s : Py.bytes) : Prop :=
  match a, b with
  | false, false => s = []
  | true, false => s = l1
  | false, true => s = l2
  | true, true => s = l1 ++ l2 \/ s = l2 ++ l1
  end.

End Conc.

(** ** Requests served one after another

    The module-level [ser] is shared by every request.  [serve] runs
    [set_led] for each request of a list in turn on the same port; an
    exception ends the request that raised it, and the next request is a new
    call of [set_led]. *)
Fixpoint serve {port : Type} (d : Driver port) (cmds : list LedCommand)
  (w : world port) : world port * list (Py.exn + Py.dict) :=
  match cmds with
  | [] => (w, [])
  | cmd :: rest =>
      let (w1, r) := run d (set_led cmd) w in
      let (w2, rs) := serve d rest w1 in
      (w2, r :: rs)
  end.

(** What one request adds to the record of calls, against its result. *)
Definition request_outcome (cmd : LedCommand)
  (o : list call * (Py.exn + Py.dict)) : Prop :=
  match snd o with
  | inr r =>
      r = acknowledgement cmd /\ fst o = [Write (wire_bytes cmd); Flush]
  | inl _ =>
      fst o = [Write (wire_bytes cmd)]
      \/ fst o = [Write (wire_bytes cmd); Flush]
  end.

(** ** Pools of any number of requests *)
Module Pool.

(** The events of thread [i] in a trace, in order. *)
Definition by_thread (i : nat) (tr : list Conc.event) : list Conc.event :=
  filter (fun ev => Nat.eqb (Conc.ev_thread ev) i) tr.

(** The lines of the requests named by [order], one after the other. *)
Definition lines_of (cmds : list LedCommand) (order : list nat) : Py.bytes :=
  flat_map (fun i =>
              match nth_error cmds i with
              | Some cmd => wire_bytes cmd
              | None => []
              end) order.

(** A bound on the calls a body has yet to make, for the bodies that occur
    while [set_led] runs. *)
Definition pending {A : Type} (p : prog A) : nat :=
  match p with
  | SerWrite _ _ => 2
  | SerFlush _ => 1
  | _ => 0
  end.

Definition event_of (i : nat) (c : call) (ok : bool) : Conc.event :=
  {| Conc.ev_thread := i; Conc.ev_call := c; Conc.ev_ok := ok |}.

(** What thread [i], serving [cmd], has left to do, against the events it has
    produced so far. *)
Inductive history (cmd : LedCommand) (i : nat)
  : prog Py.dict -> list Conc.event -> Prop :=
| not_started : history cmd i (set_led cmd) []
| written :
    history cmd i (SerFlush (Return (acknowledgement cmd)))
      [event_of i (Write (wire_bytes cmd)) true]
| flushed :
    history cmd i (Return (acknowledgement cmd))
      [event_of i (Write (wire_bytes cmd)) true; event_of i Flush true]
| write_raised (e : Py.exn) :
    history cmd i (Raise e) [event_of i (Write (wire_bytes cmd)) false]
| flush_raised (e : Py.exn) :
    history cmd i (Raise e)
      [event_of i (Write (wire_bytes cmd)) true; event_of i Flush false].

(** Every thread of a pool serving [cmds] is at a point of the body of its
    request; [flag i] tells whether the write of thread [i] has succeeded. *)
Definition threads_at (cmds : list LedCommand) (pool : list (prog Py.dict))
  (flag : nat -> bool) : Prop :=
  List.length pool = List.length cmds
  /\ forall (i : nat) (cmd : LedCommand),
       nth_error cmds i = Some cmd ->
       exists p : prog Py.dict,
         nth_error pool i = Some p /\ Conc.at_point cmd (flag i) p.

(** Every thread of a pool serving [cmds] has, in the trace, the events its
    body accounts for. *)
Definition threads_history (cmds : list LedCommand)
  (pool : list (prog Py.dict)) (tr : list Conc.event) : Prop :=
  List.length pool = List.length cmds
  /\ forall (i : nat) (cmd : LedCommand),
       nth_error cmds i = Some cmd ->
       exists p : prog Py.dict,
         nth_error pool i = Some p /\ history cmd i p (by_thread i tr).

(** A trace after which no thread is between its write and its flush, and in
    which none was interrupted there. *)
Definition quiescent (tr : list Conc.event) : Prop :=
  forall rest : list Conc.event,
    Conc.exclusive_from None (tr ++ rest) = Conc.exclusive_from None rest.

(** A thread that has returned or raised. *)
Definition finished (cmd : LedCommand) (p : prog Py.dict) : Prop :=
  p = Return (acknowledgement cmd) \/ exists e : Py.exn, p = Raise e.

(** The schedule that runs [n] requests one after the other, from thread
    [first] on: two steps of that thread, then two of the next, and so on. *)
Definition one_by_one (first n : nat) : list nat :=
  flat_map (fun i => [i; i]) (seq first n).

End Pool.

(* ================================================================== *)
(** * Part II: properties *)
(* ================================================================== *)

(** ** Normalisation and formatting *)

Lemma bool_of_int_false_iff (n : Z) : Py.bool_of_int n = false <-> n = 0%Z.
Proof.
  unfold Py.bool_of_int.
  destruct (Z.eqb_spec n 0); simpl; split; intro H; congruence.
Qed.

Lemma normalized_state_zero (cmd : LedCommand) :
  state cmd = 0%Z -> normalized_state cmd = Off.
Proof.
  intro H. unfold normalized_state. rewrite H. reflexivity.
Qed.

Lemma normalized_state_nonzero (cmd : LedCommand) :
  state cmd <> 0%Z -> normalized_state cmd = On.
Proof.
  intro H. unfold normalized_state.
  destruct (Py.bool_of_int (state cmd)) eqn:E; [reflexivity|].
  apply bool_of_int_false_iff in E. contradiction.
Qed.

Lemma normalized_state_cases (cmd : LedCommand) :
  (state cmd = 0%Z /\ normalized_state cmd = Off)
  \/ (state cmd <> 0%Z /\ normalized_state cmd = On).
Proof.
  destruct (Z.eq_dec (state cmd) 0) as [H|H].
  - left. split; [assumption | now apply normalized_state_zero].
  - right. split; [assumption | now apply normalized_state_nonzero].
Qed.

(** C1: for every integer [n], the normalised state of a command with state
    [n] is [Off] exactly when [n] is zero, and [On] exactly when it is not,
    whatever the sign or the size of [n]. *)
Theorem normalized_state_off_iff_zero (n : Z) :
  (normalized_state {| state := n |} = Off <-> n = 0%Z)
  /\ (normalized_state {| state := n |} = On <-> n <> 0%Z).
Proof.
  destruct (normalized_state_cases {| state := n |}) as [[Hz Hn]|[Hz Hn]];
    simpl in Hz; rewrite Hn; unfold Off, On; split; split; intro H;
    try reflexivity; try assumption; try discriminate; try contradiction.
Qed.

Example normalized_state_negative :
  normalized_state {| state := -3 |} = On.
Proof. reflexivity. Qed.

Example normalized_state_large :
  normalized_state {| state := 2 ^ 200 |} = On
  /\ normalized_state {| state := - 2 ^ 200 |} = On.
Proof. split; reflexivity. Qed.

Lemma command_str_off (cmd : LedCommand) :
  state cmd = 0%Z -> command_str cmd = Py.lit ("LED 0" ++ Py.nl).
Proof.
  intro H. unfold command_str. rewrite (normalized_state_zero cmd H).
  reflexivity.
Qed.

Lemma command_str_on (cmd : LedCommand) :
  state cmd <> 0%Z -> command_str cmd = Py.lit ("LED 1" ++ Py.nl).
Proof.
  intro H. unfold command_str. rewrite (normalized_state_nonzero cmd H).
  reflexivity.
Qed.

Lemma command_str_cases (cmd : LedCommand) :
  command_str cmd = Py.lit ("LED 0" ++ Py.nl)
  \/ command_str cmd = Py.lit ("LED 1" ++ Py.nl).
Proof.
  destruct (Z.eq_dec (state cmd) 0) as [H|H].
  - left. now apply command_str_off.
  - right. now apply command_str_on.
Qed.

(** C2: formatting gives ["LED 0\n"] for [Off] and ["LED 1\n"] for [On], and
    for every command the string [command_str] is one of these two. *)
Theorem command_str_two_lines :
  wire_line Off = Py.lit ("LED 0" ++ Py.nl)
  /\ wire_line On = Py.lit ("LED 1" ++ Py.nl)
  /\ forall cmd : LedCommand,
       command_str cmd = Py.lit ("LED 0" ++ Py.nl)
       \/ command_str cmd = Py.lit ("LED 1" ++ Py.nl).
Proof.
  split; [reflexivity|]. split; [reflexivity|]. exact command_str_cases.
Qed.

(** The format is not constant: away from the two normalised values it would
    print other numerals, so the two-line property rests on normalisation. *)
Example wire_line_other_numeral :
  wire_line (-12) = Py.lit ("LED -12" ++ Py.nl).
Proof. reflexivity. Qed.

(** ** Encoding *)

Lemma encode_command_str (cmd : LedCommand) :
  Py.encode_utf8 (command_str cmd) = inr (wire_bytes cmd).
Proof.
  unfold wire_bytes.
  destruct (command_str_cases cmd) as [H|H]; rewrite H; reflexivity.
Qed.

Lemma wire_bytes_off (cmd : LedCommand) :
  state cmd = 0%Z -> wire_bytes cmd = octets ("LED 0" ++ Py.nl).
Proof.
  intro H. unfold wire_bytes. rewrite (command_str_off cmd H). reflexivity.
Qed.

Lemma wire_bytes_on (cmd : LedCommand) :
  state cmd <> 0%Z -> wire_bytes cmd = octets ("LED 1" ++ Py.nl).
Proof.
  intro H. unfold wire_bytes. rewrite (command_str_on cmd H). reflexivity.
Qed.

Lemma wire_bytes_cases (cmd : LedCommand) :
  wire_bytes cmd = octets ("LED 0" ++ Py.nl)
  \/ wire_bytes cmd = octets ("LED 1" ++ Py.nl).
Proof.
  destruct (Z.eq_dec (state cmd) 0) as [H|H].
  - left. now apply wire_bytes_off.
  - right. now apply wire_bytes_on.
Qed.

(** The body of [set_led], call by call. *)
Lemma set_led_calls (cmd : LedCommand) :
  set_led cmd
  = SerWrite (wire_bytes cmd)
      (fun _ => SerFlush (Return (acknowledgement cmd))).
Proof.
  unfold set_led. rewrite encode_command_str. reflexivity.
Qed.

(** C9: for every command the octets handed to [ser.write] are the UTF-8
    encoding of [command_str], one octet for each character and equal to its
    code point, all below 128, and the last one, and only the last one, is the
    line feed. *)
Theorem wire_bytes_single_byte_ascii (cmd : LedCommand) :
  exists data : Py.bytes,
    Py.encode_utf8 (command_str cmd) = inr data
    /\ (exists k, set_led cmd = SerWrite data k)
    /\ List.length data = List.length (command_str cmd)
    /\ map Byte.to_N data = command_str cmd
    /\ Forall (fun b => (Byte.to_N b < 128)%N) data
    /\ exists init : Py.bytes,
         data = init ++ [byte_of_ascii Py.LF]
         /\ ~ In (byte_of_ascii Py.LF) init.
Proof.
  exists (wire_bytes cmd).
  split; [apply encode_command_str|].
  split; [eexists; apply set_led_calls|].
  destruct (Z.eq_dec (state cmd) 0) as [H|H].
  - rewrite (wire_bytes_off cmd H), (command_str_off cmd H).
    split; [reflexivity|]. split; [reflexivity|].
    split; [repeat constructor|].
    exists (octets "LED 0"). split; [reflexivity|].
    simpl. intros Hin.
    repeat (destruct Hin as [Hin|Hin]; [discriminate Hin|]). exact Hin.
  - rewrite (wire_bytes_on cmd H), (command_str_on cmd H).
    split; [reflexivity|]. split; [reflexivity|].
    split; [repeat constructor|].
    exists (octets "LED 1"). split; [reflexivity|].
    simpl. intros Hin.
    repeat (destruct Hin as [Hin|Hin]; [discriminate Hin|]). exact Hin.
Qed.

(** Encoding is not one octet a character in general: the property above is
    one of the command strings, not of the codec. *)
Example encode_utf8_two_octets :
  Py.encode_utf8 [0xE9%N] = inr [xc3; xa9].
Proof. reflexivity. Qed.

Example encode_utf8_surrogate :
  Py.encode_utf8 [0xD800%N] = inl Py.UnicodeEncodeError.
Proof. reflexivity. Qed.

(** ** One request on its own *)

Section Sequential.

Variable port : Type.
Variable d : Driver port.

Lemma calls_called_twice (w : world port) (c1 c2 : call) (dev1 dev2 : port) :
  called (called w c1 dev1) c2 dev2
  = {| device := dev2; calls := calls w ++ [c1; c2] |}.
Proof.
  unfold called. simpl. rewrite <- app_assoc. reflexivity.
Qed.

(** What a run of [set_led] does, by the outcome of its two calls. *)
Lemma run_set_led (cmd : LedCommand) (w : world port) :
  run d (set_led cmd) w
  = match drv_write d (wire_bytes cmd) (device w) with
    | (dev1, inl e) => (called w (Write (wire_bytes cmd)) dev1, inl e)
    | (dev1, inr _) =>
        let w1 := called w (Write (wire_bytes cmd)) dev1 in
        match drv_flush d dev1 with
        | (dev2, inl e) => (called w1 Flush dev2, inl e)
        | (dev2, inr _) => (called w1 Flush dev2, inr (acknowledgement cmd))
        end
    end.
Proof.
  rewrite set_led_calls. simpl.
  destruct (drv_write d (wire_bytes cmd) (device w)) as [dev1 [e|n]];
    [reflexivity|].
  simpl. destruct (drv_flush d dev1) as [dev2 [e|u]]; reflexivity.
Qed.

Lemma run_set_led_ok (cmd : LedCommand) (w : world port)
  (dev1 dev2 : port) (n : N) (u : unit) :
  drv_write d (wire_bytes cmd) (device w) = (dev1, inr n) ->
  drv_flush d dev1 = (dev2, inr u) ->
  run d (set_led cmd) w
  = ({| device := dev2;
        calls := calls w ++ [Write (wire_bytes cmd); Flush] |},
     inr (acknowledgement cmd)).
Proof.
  intros Hw Hf. rewrite run_set_led, Hw. simpl. rewrite Hf.
  rewrite calls_called_twice. reflexivity.
Qed.

Lemma run_set_led_write_raises (cmd : LedCommand) (w : world port)
  (dev1 : port) (e : Py.exn) :
  drv_write d (wire_bytes cmd) (device w) = (dev1, inl e) ->
  run d (set_led cmd) w
  = ({| device := dev1; calls := calls w ++ [Write (wire_bytes cmd)] |},
     inl e).
Proof.
  intros Hw. rewrite run_set_led, Hw. reflexivity.
Qed.

Lemma run_set_led_flush_raises (cmd : LedCommand) (w : world port)
  (dev1 dev2 : port) (n : N) (e : Py.exn) :
  drv_write d (wire_bytes cmd) (device w) = (dev1, inr n) ->
  drv_flush d dev1 = (dev2, inl e) ->
  run d (set_led cmd) w
  = ({| device := dev2;
        calls := calls w ++ [Write (wire_bytes cmd); Flush] |},
     inl e).
Proof.
  intros Hw Hf. rewrite run_set_led, Hw. simpl. rewrite Hf.
  rewrite calls_called_twice. reflexivity.
Qed.

(** C3: on a port whose write and flush succeed, [set_led] with state 0
    makes one write of the octets of ["LED 0\n"], one flush, and returns
    [{"status": "ok", "sent": "LED 0"}]. *)
Theorem set_led_zero (w : world port) (dev1 dev2 : port) (n : N) (u : unit) :
  drv_write d (octets ("LED 0" ++ Py.nl)) (device w) = (dev1, inr n) ->
  drv_flush d dev1 = (dev2, inr u) ->
  run d (set_led {| state := 0 |}) w
  = ({| device := dev2;
        calls := calls w ++ [Write (octets ("LED 0" ++ Py.nl)); Flush] |},
     inr [(Py.lit "status", Py.lit "ok"); (Py.lit "sent", Py.lit "LED 0")]).
Proof.
  intros Hw Hf.
  exact (run_set_led_ok {| state := 0 |} w Hw Hf).
Qed.

(** C4: on a port whose write and flush succeed, [set_led] with state 7 and
    [set_led] with state -3 each write the octets of ["LED 1\n"] and return
    a response whose "sent" item is ["LED 1"]. *)
Theorem set_led_nonzero (w : world port) (dev1 dev2 : port) (n : N)
  (u : unit) :
  drv_write d (octets ("LED 1" ++ Py.nl)) (device w) = (dev1, inr n) ->
  drv_flush d dev1 = (dev2, inr u) ->
  let after :=
    {| device := dev2;
       calls := calls w ++ [Write (octets ("LED 1" ++ Py.nl)); Flush] |} in
  let response :=
    [(Py.lit "status", Py.lit "ok"); (Py.lit "sent", Py.lit "LED 1")] in
  run d (set_led {| state := 7 |}) w = (after, inr response)
  /\ run d (set_led {| state := -3 |}) w = (after, inr response)
  /\ Py.get response (Py.lit "sent") = Some (Py.lit "LED 1").
Proof.
  intros Hw Hf after response. split; [|split].
  - exact (run_set_led_ok {| state := 7 |} w Hw Hf).
  - exact (run_set_led_ok {| state := -3 |} w Hw Hf).
  - reflexivity.
Qed.

Lemma strip_command_str (cmd : LedCommand) :
  Py.strip (command_str cmd) ++ Py.lit Py.nl = command_str cmd
  /\ Py.strip (command_str cmd) = removelast (command_str cmd).
Proof.
  destruct (command_str_cases cmd) as [H|H]; rewrite H; split; reflexivity.
Qed.

(** C5: whenever [set_led] returns a response, its "sent" item is
    [command_str] without its last character, the line feed: putting the
    line feed back gives [command_str], whose encoding is what was
    written. *)
Theorem sent_is_line_without_terminator (cmd : LedCommand)
  (w w' : world port) (ack : Py.dict) :
  run d (set_led cmd) w = (w', inr ack) ->
  exists (sent : Py.str) (data : Py.bytes),
    Py.get ack (Py.lit "sent") = Some sent
    /\ calls w' = calls w ++ [Write data; Flush]
    /\ Py.encode_utf8 (sent ++ Py.lit Py.nl) = inr data
    /\ sent ++ Py.lit Py.nl = command_str cmd
    /\ sent = removelast (command_str cmd).
Proof.
  intros Hrun. rewrite run_set_led in Hrun.
  destruct (drv_write d (wire_bytes cmd) (device w)) as [dev1 [e|n]];
    [discriminate Hrun|].
  simpl in Hrun.
  destruct (drv_flush d dev1) as [dev2 [e|u]]; [discriminate Hrun|].
  rewrite calls_called_twice in Hrun.
  injection Hrun as Hw' Hack. subst w' ack.
  destruct (strip_command_str cmd) as [Happ Hlast].
  exists (Py.strip (command_str cmd)), (wire_bytes cmd).
  split; [reflexivity|]. split; [reflexivity|].
  split; [rewrite Happ; apply encode_command_str|].
  split; assumption.
Qed.

(** C6: however a run of [set_led] ends, a response means that the write
    and then the flush both returned, and an exception is the very one the
    write or the flush raised; the calls made are the one write and, after
    a successful write, the one flush, and nothing else. *)
Theorem acknowledged_only_after_flush (cmd : LedCommand)
  (w w' : world port) (res : Py.exn + Py.dict) :
  run d (set_led cmd) w = (w', res) ->
  match res with
  | inr ack =>
      ack = acknowledgement cmd
      /\ exists (dev1 : port) (n : N) (u : unit),
           drv_write d (wire_bytes cmd) (device w) = (dev1, inr n)
           /\ drv_flush d dev1 = (device w', inr u)
           /\ calls w' = calls w ++ [Write (wire_bytes cmd); Flush]
  | inl e =>
      (drv_write d (wire_bytes cmd) (device w) = (device w', inl e)
       /\ calls w' = calls w ++ [Write (wire_bytes cmd)])
      \/ (exists (dev1 : port) (n : N),
            drv_write d (wire_bytes cmd) (device w) = (dev1, inr n)
            /\ drv_flush d dev1 = (device w', inl e)
            /\ calls w' = calls w ++ [Write (wire_bytes cmd); Flush])
  end.
Proof.
  intros Hrun. rewrite run_set_led in Hrun.
  destruct (drv_write d (wire_bytes cmd) (device w)) as [dev1 [e|n]].
  - injection Hrun as Hw' Hres. subst w' res. left. split; reflexivity.
  - simpl in Hrun.
    destruct (drv_flush d dev1) as [dev2 [e|u]] eqn:Hf;
      rewrite calls_called_twice in Hrun;
      injection Hrun as Hw' Hres; subst w' res.
    + right. exists dev1, n. simpl. repeat split; assumption.
    + split; [reflexivity|]. exists dev1, n, u. simpl.
      repeat split; assumption.
Qed.

End Sequential.

Lemma set_led_zero_witness :
  run Sim.driver (set_led {| state := 0 |}) (Sim.fresh [])
  = ({| device := Sim.opened [] (octets ("LED 0" ++ Py.nl)) [];
        calls := [Write (octets ("LED 0" ++ Py.nl)); Flush] |},
     inr [(Py.lit "status", Py.lit "ok"); (Py.lit "sent", Py.lit "LED 0")]).
Proof.
  apply (@set_led_zero _ Sim.driver (Sim.fresh [])
           (Sim.opened (octets ("LED 0" ++ Py.nl)) [] [])
           (Sim.opened [] (octets ("LED 0" ++ Py.nl)) []) 6%N tt);
    reflexivity.
Defined.

Lemma set_led_nonzero_witness :
  run Sim.driver (set_led {| state := 7 |}) (Sim.fresh [])
  = ({| device := Sim.opened [] (octets ("LED 1" ++ Py.nl)) [];
        calls := [Write (octets ("LED 1" ++ Py.nl)); Flush] |},
     inr [(Py.lit "status", Py.lit "ok"); (Py.lit "sent", Py.lit "LED 1")]).
Proof.
  apply (@set_led_nonzero _ Sim.driver (Sim.fresh [])
           (Sim.opened (octets ("LED 1" ++ Py.nl)) [] [])
           (Sim.opened [] (octets ("LED 1" ++ Py.nl)) []) 6%N tt);
    reflexivity.
Defined.

Lemma sent_is_line_without_terminator_witness :
  exists (sent : Py.str) (data : Py.bytes),
    Py.get (acknowledgement {| state := 7 |}) (Py.lit "sent") = Some sent
    /\ [Write (octets ("LED 1" ++ Py.nl)); Flush] = [] ++ [Write data; Flush]
    /\ Py.encode_utf8 (sent ++ Py.lit Py.nl) = inr data
    /\ sent ++ Py.lit Py.nl = command_str {| state := 7 |}
    /\ sent = removelast (command_str {| state := 7 |}).
Proof.
  exact (@sent_is_line_without_terminator _ Sim.driver {| state := 7 |}
           (Sim.fresh [])
           {| device := Sim.opened [] (octets ("LED 1" ++ Py.nl)) [];
              calls := [Write (octets ("LED 1" ++ Py.nl)); Flush] |}
           (acknowledgement {| state := 7 |}) eq_refl).
Defined.

(** [strip] does remove more than one trailing line feed where there is more
    white space to remove; on a command string there is not. *)
Example strip_removes_all_white_space :
  Py.strip (Py.lit ("  LED 1 " ++ Py.nl ++ Py.nl)) = Py.lit "LED 1".
Proof. reflexivity. Qed.

(** A flush that fails on the simulated port: the error comes back, after one
    write and one flush. *)
Lemma acknowledged_only_after_flush_witness :
  let cmd := {| state := 1 |} in
  let w := Sim.fresh [None; Some (Py.SerialException 5)] in
  let w' := {| device := Sim.opened (wire_bytes cmd) [] [];
               calls := [Write (wire_bytes cmd); Flush] |} in
  run Sim.driver (set_led cmd) w = (w', inl (Py.SerialException 5))
  /\ ((drv_write Sim.driver (wire_bytes cmd) (device w)
       = (device w', inl (Py.SerialException 5))
       /\ calls w' = calls w ++ [Write (wire_bytes cmd)])
      \/ (exists (dev1 : Sim.port) (n : N),
            drv_write Sim.driver (wire_bytes cmd) (device w) = (dev1, inr n)
            /\ drv_flush Sim.driver dev1
               = (device w', inl (Py.SerialException 5))
            /\ calls w' = calls w ++ [Write (wire_bytes cmd); Flush])).
Proof.
  intros cmd w w'. split; [reflexivity|].
  exact (@acknowledged_only_after_flush _ Sim.driver cmd w w'
           (inl (Py.SerialException 5)) eq_refl).
Defined.

(** On a closed port nothing is acknowledged either. *)
Example set_led_on_closed_port :
  snd (run Sim.driver (set_led {| state := 1 |})
         {| device := {| Sim.is_open := false; Sim.out_buffer := [];
                         Sim.wire := []; Sim.faults := [] |};
            calls := [] |})
  = inl Py.PortNotOpenError.
Proof. reflexivity. Qed.

(** ** Determinism *)

(** C10: two commands with equal [state] give the same body, hence write the
    same octets and, where a response is returned, the same response, on any
    driver and from any state of the port: the octets and the response are
    fixed by [state] alone. *)
Theorem set_led_depends_only_on_state (c1 c2 : LedCommand) :
  state c1 = state c2 ->
  set_led c1 = set_led c2
  /\ exists (data : Py.bytes) (ack : Py.dict),
       forall (port : Type) (d : Driver port) (w : world port)
              (c : LedCommand),
         c = c1 \/ c = c2 ->
         (exists rest : list call,
            calls (fst (run d (set_led c) w)) = calls w ++ Write data :: rest
            /\ (rest = [] \/ rest = [Flush]))
         /\ (forall r : Py.dict,
               snd (run d (set_led c) w) = inr r -> r = ack).
Proof.
  intros Hst.
  assert (Hc : c1 = c2) by (destruct c1, c2; simpl in Hst; now subst).
  subst c2. split; [reflexivity|].
  exists (wire_bytes c1), (acknowledgement c1).
  intros port d w c Hcc.
  assert (c = c1) by (destruct Hcc; assumption). subst c.
  rewrite run_set_led.
  destruct (drv_write d (wire_bytes c1) (device w)) as [dev1 [e|n]].
  - simpl. split; [exists []; split; [reflexivity | now left]|].
    intros r Hr. discriminate Hr.
  - simpl. destruct (drv_flush d dev1) as [dev2 [e|u]];
      rewrite calls_called_twice; simpl.
    + split; [exists [Flush]; split; [reflexivity | now right]|].
      intros r Hr. discriminate Hr.
    + split; [exists [Flush]; split; [reflexivity | now right]|].
      intros r Hr. now injection Hr as <-.
Qed.

Lemma set_led_depends_only_on_state_witness :
  set_led {| state := 5 |} = set_led {| state := 5 |}
  /\ exists (data : Py.bytes) (ack : Py.dict),
       forall (port : Type) (d : Driver port) (w : world port)
              (c : LedCommand),
         c = {| state := 5 |} \/ c = {| state := 5 |} ->
         (exists rest : list call,
            calls (fst (run d (set_led c) w)) = calls w ++ Write data :: rest
            /\ (rest = [] \/ rest = [Flush]))
         /\ (forall r : Py.dict,
               snd (run d (set_led c) w) = inr r -> r = ack).
Proof.
  exact (set_led_depends_only_on_state {| state := 5 |} {| state := 5 |}
           eq_refl).
Defined.

(** ** Time-outs *)

(** The settings of [ser]: a read time-out of one second, no write
    time-out. *)
Lemma ser_timeouts :
  cfg_timeout ser = Some 1%Z /\ cfg_write_timeout ser = None.
Proof. split; reflexivity. Qed.

(** With a write time-out [t] set, a device that stalls longer than [t] makes
    [set_led] fail with the time-out exception after [t] seconds. *)
Lemma write_timeout_when_configured (cfg : SerialConfig) (t secs : Z)
  (cmd : LedCommand) :
  cfg_write_timeout cfg = Some t ->
  (t < secs)%Z ->
  run (Timed.driver cfg) (set_led cmd) (Timed.start secs)
  = ({| device := {| Timed.clock := t; Timed.stall := secs;
                     Timed.taken := [] |};
        calls := [Write (wire_bytes cmd)] |},
     inl Py.SerialTimeoutException).
Proof.
  intros Hcfg Hlt. rewrite run_set_led. simpl. unfold Timed.write.
  rewrite Hcfg. simpl.
  destruct (Z.leb_spec secs t) as [Hle|_]; [lia|].
  reflexivity.
Qed.

(** With the settings of [ser], a device that needs five seconds for a write
    is waited for, and the request is acknowledged: no time-out is raised
    although the write took longer than the one second configured. *)
Lemma slow_write_is_acknowledged :
  cfg_timeout ser = Some 1%Z
  /\ run (Timed.driver ser) (set_led {| state := 1 |}) (Timed.start 5)
     = ({| device := {| Timed.clock := 5; Timed.stall := 5;
                        Timed.taken := octets ("LED 1" ++ Py.nl) |};
           calls := [Write (octets ("LED 1" ++ Py.nl)); Flush] |},
        inr [(Py.lit "status", Py.lit "ok");
             (Py.lit "sent", Py.lit "LED 1")])
  /\ snd (run (Timed.driver ser) (set_led {| state := 1 |}) (Timed.start 5))
     <> inl Py.SerialTimeoutException.
Proof.
  split; [reflexivity|]. split; [reflexivity|]. discriminate.
Qed.

(** C7, amended: a time-out exception raised by the write ends [set_led] with
    that exception, before any flush and without a response; but [ser] is
    given a read time-out of one second and no write time-out, so a write is
    waited for as long as the device stalls and the request is then
    acknowledged. *)
Theorem write_timeout_propagates_but_is_not_set :
  (forall (port : Type) (d : Driver port) (cmd : LedCommand)
          (w : world port) (dev1 : port),
      drv_write d (wire_bytes cmd) (device w)
      = (dev1, inl Py.SerialTimeoutException) ->
      run d (set_led cmd) w
      = ({| device := dev1; calls := calls w ++ [Write (wire_bytes cmd)] |},
         inl Py.SerialTimeoutException))
  /\ cfg_timeout ser = Some 1%Z
  /\ cfg_write_timeout ser = None
  /\ (forall (cmd : LedCommand) (secs : Z),
        run (Timed.driver ser) (set_led cmd) (Timed.start secs)
        = ({| device := {| Timed.clock := secs; Timed.stall := secs;
                           Timed.taken := wire_bytes cmd |};
              calls := [Write (wire_bytes cmd); Flush] |},
           inr (acknowledgement cmd))).
Proof.
  split; [|split; [|split]]; try reflexivity.
  - intros port d cmd w dev1 Hw. now apply run_set_led_write_raises.
  - intros cmd secs. rewrite run_set_led. reflexivity.
Qed.

Lemma write_timeout_propagates_but_is_not_set_witness :
  drv_write Sim.driver (wire_bytes {| state := 1 |})
    (device (Sim.fresh [Some Py.SerialTimeoutException]))
  = (Sim.opened [] [] [], inl Py.SerialTimeoutException)
  /\ run Sim.driver (set_led {| state := 1 |})
       (Sim.fresh [Some Py.SerialTimeoutException])
     = ({| device := Sim.opened [] [] [];
           calls := [Write (wire_bytes {| state := 1 |})] |},
        inl Py.SerialTimeoutException).
Proof.
  split; [reflexivity|].
  exact (proj1 write_timeout_propagates_but_is_not_set _ Sim.driver
           {| state := 1 |} (Sim.fresh [Some Py.SerialTimeoutException])
           (Sim.opened [] [] []) eq_refl).
Defined.

(** ** Two requests at once *)

Section Concurrent.

Variable port : Type.
Variable d : Driver port.

Lemma stream_snoc (tr : list Conc.event) (ev : Conc.event) :
  Conc.stream (tr ++ [ev])
  = Conc.stream tr
    ++ match Conc.ev_call ev with
       | Write data => if Conc.ev_ok ev then data else []
       | Flush => []
       end.
Proof.
  unfold Conc.stream. rewrite flat_map_app. simpl.
  rewrite app_nil_r. reflexivity.
Qed.

(** One thread scheduled to its end does what the sequential run does. *)
Lemma single_thread_schedule_agrees (dev : port) (cmd : LedCommand) :
  let seq := run d (set_led cmd) {| device := dev; calls := [] |} in
  let conc := Conc.run_sched d [0; 0] [set_led cmd] (Conc.fresh dev) in
  fst conc = [eval (snd seq)]
  /\ Conc.device (snd conc) = device (fst seq)
  /\ map Conc.ev_call (Conc.trace (snd conc)) = calls (fst seq).
Proof.
  rewrite run_set_led, set_led_calls. simpl.
  unfold Conc.step, Conc.step_thread. simpl.
  destruct (drv_write d (wire_bytes cmd) dev) as [dev1 [e|n]]; simpl;
    [repeat split|].
  unfold Conc.step, Conc.step_thread. simpl.
  destruct (drv_flush d dev1) as [dev2 [e|u]]; simpl; repeat split.
Qed.

(** A step of a thread inside [set_led] leaves it inside [set_led]; the
    stream grows by the thread's whole line when its write succeeds, and
    not at all otherwise. *)
Lemma step_thread_at_point (i : nat) (cmd : LedCommand) (a : bool)
  (p : prog Py.dict) (w : Conc.world port) :
  Conc.at_point cmd a p ->
  exists a' : bool,
    Conc.at_point cmd a' (fst (Conc.step_thread d i p w))
    /\ ((a' = a
         /\ Conc.stream (Conc.trace (snd (Conc.step_thread d i p w)))
            = Conc.stream (Conc.trace w))
        \/ (a = false /\ a' = true
            /\ Conc.stream (Conc.trace (snd (Conc.step_thread d i p w)))
               = Conc.stream (Conc.trace w) ++ wire_bytes cmd)).
Proof.
  intros Hat. destruct Hat.
  - rewrite set_led_calls. simpl.
    destruct (drv_write d (wire_bytes cmd) (Conc.device w))
      as [dev1 [e|n]]; simpl.
    + exists false. split; [constructor|]. left. split; [reflexivity|].
      rewrite stream_snoc. simpl. apply app_nil_r.
    + exists true. split; [constructor|]. right.
      repeat split. rewrite stream_snoc. reflexivity.
  - simpl.
    destruct (drv_flush d (Conc.device w)) as [dev2 [e|u]]; simpl;
      exists true; (split; [constructor|]); left;
      (split; [reflexivity|]); rewrite stream_snoc; simpl;
      apply app_nil_r.
  - exists true. split; [constructor|]. left. split; reflexivity.
  - exists false. split; [constructor|]. left. split; reflexivity.
  - exists true. split; [constructor|]. left. split; reflexivity.
Qed.

Lemma at_point_returned (cmd : LedCommand) (a : bool) (r : Py.dict) :
  Conc.at_point cmd a (Return r) -> a = true.
Proof.
  intros Hat. remember (Return r) as p eqn:Hp.
  destruct Hat; try reflexivity.
  - rewrite set_led_calls in Hp. discriminate Hp.
  - discriminate Hp.
Qed.

Section TwoRequests.

Variables c1 c2 : LedCommand.

(** The invariant of a pool of two requests: each is at a point of
    [set_led], and the stream is made of the whole lines of those whose
    write has succeeded. *)
Lemma step_preserves_whole_lines (i : nat) (p1 p2 : prog Py.dict)
  (w : Conc.world port) (a b : bool) :
  Conc.at_point c1 a p1 ->
  Conc.at_point c2 b p2 ->
  Conc.whole_lines a b (wire_bytes c1) (wire_bytes c2)
    (Conc.stream (Conc.trace w)) ->
  exists (p1' p2' : prog Py.dict) (a' b' : bool),
    fst (Conc.step d i [p1; p2] w) = [p1'; p2']
    /\ Conc.at_point c1 a' p1'
    /\ Conc.at_point c2 b' p2'
    /\ Conc.whole_lines a' b' (wire_bytes c1) (wire_bytes c2)
         (Conc.stream (Conc.trace (snd (Conc.step d i [p1; p2] w)))).
Proof.
  intros H1 H2 Hs. unfold Conc.step.
  destruct i as [|[|i]]; simpl.
  - destruct (step_thread_at_point 0 w H1) as (a' & Ha' & Hc).
    destruct (Conc.step_thread d 0 p1 w) as [p1' w'] eqn:E. simpl in *.
    exists p1', p2, a', b. repeat split; try assumption.
    destruct Hc as [[Ea Es]|(Ea & Ea' & Es)]; rewrite Es; subst;
      [assumption|].
    destruct b; simpl in *; rewrite Hs; auto.
  - destruct (step_thread_at_point 1 w H2) as (b' & Hb' & Hc).
    destruct (Conc.step_thread d 1 p2 w) as [p2' w'] eqn:E. simpl in *.
    exists p1, p2', a, b'. repeat split; try assumption.
    destruct Hc as [[Eb Es]|(Eb & Eb' & Es)]; rewrite Es; subst;
      [assumption|].
    destruct a; simpl in *; rewrite Hs; auto.
  - destruct i; simpl; exists p1, p2, a, b; repeat split; assumption.
Qed.

Lemma run_sched_whole_lines (sched : list nat) :
  forall (p1 p2 : prog Py.dict) (w : Conc.world port) (a b : bool),
    Conc.at_point c1 a p1 ->
    Conc.at_point c2 b p2 ->
    Conc.whole_lines a b (wire_bytes c1) (wire_bytes c2)
      (Conc.stream (Conc.trace w)) ->
    exists (p1' p2' : prog Py.dict) (a' b' : bool),
      fst (Conc.run_sched d sched [p1; p2] w) = [p1'; p2']
      /\ Conc.at_point c1 a' p1'
      /\ Conc.at_point c2 b' p2'
      /\ Conc.whole_lines a' b' (wire_bytes c1) (wire_bytes c2)
           (Conc.stream
              (Conc.trace (snd (Conc.run_sched d sched [p1; p2] w)))).
Proof.
  induction sched as [|i sched IH]; intros p1 p2 w a b H1 H2 Hs.
  - exists p1, p2, a, b. repeat split; assumption.
  - destruct (step_preserves_whole_lines i w H1 H2 Hs)
      as (q1 & q2 & a' & b' & Hpool & Hq1 & Hq2 & Hs').
    simpl. destruct (Conc.step d i [p1; p2] w) as [pool' w'].
    simpl in Hpool, Hs'. subst pool'.
    exact (IH q1 q2 w' a' b' Hq1 Hq2 Hs').
Qed.

End TwoRequests.

End Concurrent.

(** Two requests on the simulated port, the second one writing between the
    first one's write and flush: the handler takes no lock, and this schedule
    is not mutually exclusive. *)
Lemma interleaved_write_then_flush :
  let result :=
    Conc.run_sched Sim.driver [0; 1; 0; 1]
      [set_led {| state := 1 |}; set_led {| state := 0 |}]
      (Conc.fresh (Sim.opened [] [] [])) in
  Conc.trace (snd result)
  = [ {| Conc.ev_thread := 0;
         Conc.ev_call := Write (octets ("LED 1" ++ Py.nl));
         Conc.ev_ok := true |};
      {| Conc.ev_thread := 1;
         Conc.ev_call := Write (octets ("LED 0" ++ Py.nl));
         Conc.ev_ok := true |};
      {| Conc.ev_thread := 0; Conc.ev_call := Flush; Conc.ev_ok := true |};
      {| Conc.ev_thread := 1; Conc.ev_call := Flush; Conc.ev_ok := true |} ]
  /\ Conc.mutually_exclusive (Conc.trace (snd result)) = false.
Proof. split; reflexivity. Qed.

(** The predicate does hold of the schedules that run one request after the
    other. *)
Example sequential_schedule_is_exclusive :
  Conc.mutually_exclusive
    (Conc.trace
       (snd (Conc.run_sched Sim.driver [1; 1; 0; 0]
               [set_led {| state := 1 |}; set_led {| state := 0 |}]
               (Conc.fresh (Sim.opened [] [] [])))))
  = true.
Proof. reflexivity. Qed.

(** C8, amended: [set_led] takes no lock, and the write of one request can
    fall between the write and the flush of another; but each request hands
    its whole line to one [ser.write], so with the calls on [ser] interleaved
    whole, the octets that reach the port under any schedule are whole lines
    of the two requests, and when both requests return they are the two lines
    one after the other, in one order or the other. *)
Theorem concurrent_requests_write_whole_lines :
  (forall (port : Type) (d : Driver port) (dev : port)
          (c1 c2 : LedCommand) (sched : list nat),
      let result :=
        Conc.run_sched d sched [set_led c1; set_led c2] (Conc.fresh dev) in
      let s := Conc.stream (Conc.trace (snd result)) in
      (s = [] \/ s = wire_bytes c1 \/ s = wire_bytes c2
       \/ s = wire_bytes c1 ++ wire_bytes c2
       \/ s = wire_bytes c2 ++ wire_bytes c1)
      /\ (forall r1 r2 : Py.dict,
            fst result = [Return r1; Return r2] ->
            s = wire_bytes c1 ++ wire_bytes c2
            \/ s = wire_bytes c2 ++ wire_bytes c1))
  /\ (forall c1 c2 : LedCommand,
        let result :=
          Conc.run_sched Sim.driver [0; 1; 0; 1] [set_led c1; set_led c2]
            (Conc.fresh (Sim.opened [] [] [])) in
        fst result
        = [Return (acknowledgement c1); Return (acknowledgement c2)]
        /\ Conc.mutually_exclusive (Conc.trace (snd result)) = false
        /\ Sim.wire (Conc.device (snd result))
           = wire_bytes c1 ++ wire_bytes c2).
Proof.
  split.
  - intros port d dev c1 c2 sched result s.
    destruct (@run_sched_whole_lines port d c1 c2 sched
                (set_led c1) (set_led c2) (Conc.fresh dev) false false
                (Conc.at_start c1) (Conc.at_start c2) eq_refl)
      as (p1 & p2 & a & b & Hpool & H1 & H2 & Hs).
    fold result in Hpool, Hs. fold s in Hs. split.
    + destruct a, b; simpl in Hs; intuition.
    + intros r1 r2 Hret. rewrite Hret in Hpool.
      injection Hpool as <- <-.
      apply at_point_returned in H1. apply at_point_returned in H2.
      subst a b. exact Hs.
  - intros c1 c2. rewrite !set_led_calls. repeat split.
    simpl. apply app_nil_r.
Qed.

Lemma concurrent_requests_write_whole_lines_witness :
  let c1 := {| state := 1 |} in
  let c2 := {| state := 0 |} in
  let result :=
    Conc.run_sched Sim.driver [0; 1; 0; 1] [set_led c1; set_led c2]
      (Conc.fresh (Sim.opened [] [] [])) in
  fst result = [Return (acknowledgement c1); Return (acknowledgement c2)]
  /\ (Conc.stream (Conc.trace (snd result))
      = wire_bytes c1 ++ wire_bytes c2
      \/ Conc.stream (Conc.trace (snd result))
         = wire_bytes c2 ++ wire_bytes c1).
Proof.
  intros c1 c2 result. split; [reflexivity|].
  exact (proj2 (proj1 concurrent_requests_write_whole_lines _ Sim.driver
                  (Sim.opened [] [] []) c1 c2 [0; 1; 0; 1])
           (acknowledgement c1) (acknowledgement c2) eq_refl).
Defined.

(* ================================================================== *)
(** * Part III: further properties of the handler *)
(* ================================================================== *)

(** ** What a command's state decides *)

Lemma set_led_of_command_str (c1 c2 : LedCommand) :
  command_str c1 = command_str c2 -> set_led c1 = set_led c2.
Proof.
  intros H. unfold set_led. rewrite H. reflexivity.
Qed.

Lemma wire_bytes_same_truthiness (c1 c2 : LedCommand) :
  wire_bytes c1 = wire_bytes c2 -> (state c1 = 0%Z <-> state c2 = 0%Z).
Proof.
  intros H.
  destruct (Z.eq_dec (state c1) 0) as [H1|H1];
    destruct (Z.eq_dec (state c2) 0) as [H2|H2];
    try (split; intro; (assumption || contradiction)).
  - rewrite (wire_bytes_off c1 H1), (wire_bytes_on c2 H2) in H.
    discriminate H.
  - rewrite (wire_bytes_on c1 H1), (wire_bytes_off c2 H2) in H.
    discriminate H.
Qed.

Lemma command_str_same_truthiness (c1 c2 : LedCommand) :
  (state c1 = 0%Z <-> state c2 = 0%Z) -> command_str c1 = command_str c2.
Proof.
  intros H.
  destruct (Z.eq_dec (state c1) 0) as [H1|H1].
  - rewrite (command_str_off c1 H1), (command_str_off c2 (proj1 H H1)).
    reflexivity.
  - assert (H2 : state c2 <> 0%Z) by (intro H2; apply H1, H, H2).
    rewrite (command_str_on c1 H1), (command_str_on c2 H2). reflexivity.
Qed.

(** X1: two commands get the same treatment (the same octets written, the
    same body of calls and response) exactly when their states are both zero
    or both nonzero: the handler keeps one bit of the state and nothing
    else. *)
Theorem set_led_same_iff_same_truthiness (c1 c2 : LedCommand) :
  (set_led c1 = set_led c2 <-> (state c1 = 0%Z <-> state c2 = 0%Z))
  /\ (wire_bytes c1 = wire_bytes c2 <-> (state c1 = 0%Z <-> state c2 = 0%Z)).
Proof.
  split; split.
  - intros H. rewrite !set_led_calls in H. injection H as Hb _.
    now apply wire_bytes_same_truthiness.
  - intros H. now apply set_led_of_command_str, command_str_same_truthiness.
  - apply wire_bytes_same_truthiness.
  - intros H. unfold wire_bytes.
    rewrite (command_str_same_truthiness c1 c2 H). reflexivity.
Qed.

(** X2: the normalised state is 0 or 1; normalising it again changes
    nothing; and it equals the state received exactly for the states 0 and 1,
    the two the page's buttons send. *)
Theorem normalized_state_fixed_points (cmd : LedCommand) :
  (normalized_state cmd = 0%Z \/ normalized_state cmd = 1%Z)
  /\ normalized_state {| state := normalized_state cmd |}
     = normalized_state cmd
  /\ (normalized_state cmd = state cmd
      <-> state cmd = 0%Z \/ state cmd = 1%Z).
Proof.
  destruct (normalized_state_cases cmd) as [[Hz Hn]|[Hz Hn]];
    rewrite Hn; unfold Off, On.
  - split; [now left|]. split; [reflexivity|]. split; intro H.
    + left. assumption.
    + symmetry. assumption.
  - split; [now right|]. split; [reflexivity|]. split; intro H.
    + right. symmetry. assumption.
    + destruct H as [H|H]; [contradiction | symmetry; assumption].
Qed.

(** X3: whatever the size of the state received, the string built has six
    characters, the data handed to [ser.write] six octets, and the "sent"
    string five characters. *)
Theorem wire_bytes_length (cmd : LedCommand) :
  List.length (command_str cmd) = 6
  /\ List.length (wire_bytes cmd) = 6
  /\ List.length (Py.strip (command_str cmd)) = 5.
Proof.
  unfold wire_bytes.
  destruct (command_str_cases cmd) as [H|H]; rewrite H;
    repeat split; reflexivity.
Qed.

(** X4: a response of [set_led] has exactly two items: "status", always
    ["ok"], and "sent", ["LED 0"] for state zero and ["LED 1"] for any other
    state; looking up any other key finds nothing. *)
Theorem response_shape (port : Type) (d : Driver port) (cmd : LedCommand)
  (w w' : world port) (r : Py.dict) :
  run d (set_led cmd) w = (w', inr r) ->
  List.length r = 2
  /\ Py.get r (Py.lit "status") = Some (Py.lit "ok")
  /\ Py.get r (Py.lit "sent")
     = Some (Py.lit (if (state cmd =? 0)%Z then "LED 0" else "LED 1"))
  /\ forall key : Py.str,
       key <> Py.lit "status" -> key <> Py.lit "sent" -> Py.get r key = None.
Proof.
  intros Hrun. rewrite run_set_led in Hrun.
  destruct (drv_write d (wire_bytes cmd) (device w)) as [dev1 [e|n]];
    [discriminate Hrun|].
  simpl in Hrun.
  destruct (drv_flush d dev1) as [dev2 [e|u]]; [discriminate Hrun|].
  injection Hrun as _ Hr. subst r.
  split; [reflexivity|]. split; [reflexivity|]. split.
  - unfold acknowledgement.
    destruct (Z.eqb_spec (state cmd) 0) as [Hz|Hz].
    + rewrite (command_str_off cmd Hz). reflexivity.
    + rewrite (command_str_on cmd Hz). reflexivity.
  - intros key Hs Ht. unfold acknowledgement. simpl.
    unfold Py.str_eqb.
    destruct (list_eq_dec N.eq_dec (Py.lit "status") key) as [E|_];
      [symmetry in E; contradiction|].
    destruct (list_eq_dec N.eq_dec (Py.lit "sent") key) as [E|_];
      [symmetry in E; contradiction|].
    reflexivity.
Qed.

Lemma response_shape_witness :
  List.length (acknowledgement {| state := -4 |}) = 2
  /\ Py.get (acknowledgement {| state := -4 |}) (Py.lit "status")
     = Some (Py.lit "ok")
  /\ Py.get (acknowledgement {| state := -4 |}) (Py.lit "sent")
     = Some (Py.lit "LED 1")
  /\ forall key : Py.str,
       key <> Py.lit "status" -> key <> Py.lit "sent" ->
       Py.get (acknowledgement {| state := -4 |}) key = None.
Proof.
  exact (@response_shape _ Sim.driver {| state := -4 |} (Sim.fresh [])
           {| device := Sim.opened [] (octets ("LED 1" ++ Py.nl)) [];
              calls := [Write (octets ("LED 1" ++ Py.nl)); Flush] |}
           (acknowledgement {| state := -4 |}) eq_refl).
Defined.

(** ** Requests served one after another *)

Section Serving.

Variable port : Type.
Variable d : Driver port.

Lemma run_set_led_outcome (cmd : LedCommand) (w : world port) :
  exists seg : list call,
    calls (fst (run d (set_led cmd) w)) = calls w ++ seg
    /\ request_outcome cmd (seg, snd (run d (set_led cmd) w)).
Proof.
  rewrite run_set_led. unfold request_outcome.
  destruct (drv_write d (wire_bytes cmd) (device w)) as [dev1 [e|n]]; simpl.
  - exists [Write (wire_bytes cmd)]. split; [reflexivity | now left].
  - destruct (drv_flush d dev1) as [dev2 [e|u]];
      rewrite calls_called_twice; simpl;
      exists [Write (wire_bytes cmd); Flush];
      (split; [reflexivity|]); [now right | now split].
Qed.

Lemma serve_outcomes (cmds : list LedCommand) :
  forall w : world port,
  exists outcomes : list (list call * (Py.exn + Py.dict)),
    Forall2 request_outcome cmds outcomes
    /\ snd (serve d cmds w) = map snd outcomes
    /\ calls (fst (serve d cmds w)) = calls w ++ List.concat (map fst outcomes).
Proof.
  induction cmds as [|cmd rest IH]; intros w.
  - exists []. simpl. rewrite app_nil_r. repeat split. constructor.
  - simpl.
    destruct (run_set_led_outcome cmd w) as (seg & Hseg & Hout).
    destruct (run d (set_led cmd) w) as [w1 r]. simpl in Hseg, Hout.
    destruct (IH w1) as (outs & Hall & Hres & Hcalls).
    destruct (serve d rest w1) as [w2 rs]. simpl in Hres, Hcalls.
    exists ((seg, r) :: outs). simpl. split; [|split].
    + constructor; assumption.
    + rewrite Hres. reflexivity.
    + rewrite Hcalls, Hseg, <- app_assoc. reflexivity.
Qed.


Lemma all_acknowledged_outcomes (cmds : list LedCommand)
  (outcomes : list (list call * (Py.exn + Py.dict))) :
  Forall2 request_outcome cmds outcomes ->
  Forall (fun r => exists a : Py.dict, r = inr a) (map snd outcomes) ->
  map snd outcomes = map (fun cmd => inr (acknowledgement cmd)) cmds
  /\ List.concat (map fst outcomes)
     = flat_map (fun cmd => [Write (wire_bytes cmd); Flush]) cmds.
Proof.
  induction 1 as [|cmd [seg r] cmds outs Hout Hall IH]; intros Hack.
  - split; reflexivity.
  - simpl in Hack. inversion Hack as [|x l [a Ha] Hrest]; subst.
    destruct (IH Hrest) as [IH1 IH2].
    unfold request_outcome in Hout. simpl in Hout.
    destruct Hout as [-> ->].
    simpl. rewrite IH1, IH2. split; reflexivity.
Qed.

(** X6: when every request of the list gets a response, the calls made on the
    port are exactly write, flush, write, flush, ... with the requests' lines
    in the order the requests came, and the responses are the requests'
    acknowledgements in that order. *)
Theorem serve_all_acknowledged (cmds : list LedCommand) (w : world port) :
  Forall (fun r => exists a : Py.dict, r = inr a) (snd (serve d cmds w)) ->
  snd (serve d cmds w) = map (fun cmd => inr (acknowledgement cmd)) cmds
  /\ calls (fst (serve d cmds w))
     = calls w
       ++ flat_map (fun cmd => [Write (wire_bytes cmd); Flush]) cmds.
Proof.
  intros Hack.
  destruct (serve_outcomes cmds w) as (outs & Hall & Hres & Hcalls).
  rewrite Hres in Hack.
  destruct (all_acknowledged_outcomes Hall Hack) as [H1 H2].
  rewrite Hres, Hcalls, H1, H2. split; reflexivity.
Qed.

End Serving.

Lemma serve_all_acknowledged_witness :
  let cmds := [{| state := 1 |}; {| state := 0 |}; {| state := -2 |}] in
  snd (serve Sim.driver cmds (Sim.fresh []))
  = map (fun cmd => inr (acknowledgement cmd)) cmds
  /\ calls (fst (serve Sim.driver cmds (Sim.fresh [])))
     = calls (Sim.fresh [])
       ++ flat_map (fun cmd => [Write (wire_bytes cmd); Flush]) cmds.
Proof.
  intros cmds. apply serve_all_acknowledged.
  vm_compute. repeat (constructor; [eexists; reflexivity|]). constructor.
Defined.

(** A request that fails between two that succeed: the port still sees the
    three lines in order. *)
Example serve_goes_on_after_an_exception :
  let cmds := [{| state := 1 |}; {| state := 0 |}; {| state := 9 |}] in
  let script := [None; None; Some (Py.SerialException 5)] in
  snd (serve Sim.driver cmds (Sim.fresh script))
  = [inr (acknowledgement {| state := 1 |});
     inl (Py.SerialException 5);
     inr (acknowledgement {| state := 9 |})]
  /\ calls (fst (serve Sim.driver cmds (Sim.fresh script)))
     = [Write (octets ("LED 1" ++ Py.nl)); Flush;
        Write (octets ("LED 0" ++ Py.nl));
        Write (octets ("LED 1" ++ Py.nl)); Flush].
Proof. split; reflexivity. Qed.

(** ** Pools of any number of requests *)

Lemma replace_length (A : Type) (i : nat) (x : A) (l : list A) :
  List.length (Conc.replace i x l) = List.length l.
Proof.
  revert i. induction l as [|y l IH]; intros [|i]; simpl; auto.
Qed.

Lemma nth_error_replace_same (A : Type) (i : nat) (x : A) (l : list A) :
  i < List.length l -> nth_error (Conc.replace i x l) i = Some x.
Proof.
  revert i. induction l as [|y l IH]; intros [|i] Hi; simpl in *;
    try lia; [reflexivity|].
  apply IH. lia.
Qed.

Lemma nth_error_replace_other (A : Type) (i j : nat) (x : A) (l : list A) :
  i <> j -> nth_error (Conc.replace i x l) j = nth_error l j.
Proof.
  revert i j. induction l as [|y l IH]; intros [|i] [|j] Hij; simpl;
    try reflexivity; try congruence.
  apply IH. congruence.
Qed.

Lemma nth_error_in_range (A : Type) (l : list A) (i : nat) (x : A) :
  nth_error l i = Some x -> i < List.length l.
Proof.
  intros H. apply nth_error_Some. congruence.
Qed.

Section Pools.

Variable port : Type.
Variable d : Driver port.

Lemma step_scheduled (A : Type) (i : nat) (pool : list (prog A))
  (w : Conc.world port) (p : prog A) :
  nth_error pool i = Some p ->
  Conc.step d i pool w
  = (Conc.replace i (fst (Conc.step_thread d i p w)) pool,
     snd (Conc.step_thread d i p w)).
Proof.
  intros H. unfold Conc.step. rewrite H.
  destruct (Conc.step_thread d i p w). reflexivity.
Qed.

Lemma step_out_of_range (A : Type) (i : nat) (pool : list (prog A))
  (w : Conc.world port) :
  nth_error pool i = None -> Conc.step d i pool w = (pool, w).
Proof.
  intros H. unfold Conc.step. rewrite H. reflexivity.
Qed.

Section WholeLines.

Variable cmds : list LedCommand.

(** The order in which the writes of a pool have succeeded: the threads it
    names are those whose flag is set, and the stream is their lines. *)
Lemma step_keeps_whole_lines (i : nat) (pool : list (prog Py.dict))
  (w : Conc.world port) (flag : nat -> bool) (order : list nat) :
  Pool.threads_at cmds pool flag ->
  NoDup order ->
  (forall j, In j order <-> j < List.length cmds /\ flag j = true) ->
  Conc.stream (Conc.trace w) = Pool.lines_of cmds order ->
  exists (flag' : nat -> bool) (order' : list nat),
    Pool.threads_at cmds (fst (Conc.step d i pool w)) flag'
    /\ NoDup order'
    /\ (forall j, In j order' <-> j < List.length cmds /\ flag' j = true)
    /\ Conc.stream (Conc.trace (snd (Conc.step d i pool w)))
       = Pool.lines_of cmds order'.
Proof.
  intros [Hlen Hat] Hnd Hin Hs.
  destruct (nth_error pool i) as [p|] eqn:Hp.
  2:{ rewrite (@step_out_of_range _ i pool w Hp). exists flag, order.
      repeat split; try assumption; apply Hin; assumption. }
  rewrite (@step_scheduled _ i pool w p Hp). simpl.
  assert (Hi : i < List.length pool) by (eapply nth_error_in_range; eauto).
  destruct (nth_error cmds i) as [c|] eqn:Hc;
    [|apply nth_error_None in Hc; lia].
  destruct (Hat i c Hc) as (p0 & Hp0 & Hpt).
  rewrite Hp in Hp0. injection Hp0 as <-.
  destruct (step_thread_at_point d i w Hpt)
    as (a' & Ha' & [[Ea Es]|(Ea & Ea' & Es)]).
  - exists flag, order. split; [split|].
    + rewrite replace_length. assumption.
    + intros j cj Hcj. destruct (Nat.eq_dec i j) as [<-|Hij].
      * rewrite Hc in Hcj. injection Hcj as <-.
        eexists. split; [apply nth_error_replace_same; assumption|].
        rewrite <- Ea. assumption.
      * rewrite (nth_error_replace_other _ _ Hij). apply Hat. assumption.
    + split; [assumption|]. split; [assumption|].
      rewrite Es. assumption.
  - exists (fun j => if Nat.eqb j i then true else flag j), (order ++ [i]).
    split; [split|split; [|split]].
    + rewrite replace_length. assumption.
    + intros j cj Hcj. destruct (Nat.eq_dec i j) as [<-|Hij].
      * rewrite Hc in Hcj. injection Hcj as <-.
        eexists. split; [apply nth_error_replace_same; assumption|].
        rewrite Nat.eqb_refl, <- Ea'. assumption.
      * rewrite (nth_error_replace_other _ _ Hij).
        assert (E : Nat.eqb j i = false) by (apply Nat.eqb_neq; congruence).
        rewrite E. apply Hat. assumption.
    + apply NoDup_app; [assumption | repeat constructor; intros [] |].
      intros j Hj [<-|[]]. apply Hin in Hj. destruct Hj as [_ Hj].
      congruence.
    + intros j. rewrite in_app_iff, Hin. simpl.
      destruct (Nat.eqb_spec j i) as [->|Hji].
      * split; [intros _; split; [lia | reflexivity] | intros _; right; auto].
      * split; [intros [H|[H|[]]]; [assumption | congruence]
               | intros H; left; assumption].
    + rewrite Es, Hs. unfold Pool.lines_of. rewrite flat_map_app. simpl.
      rewrite Hc, app_nil_r. reflexivity.
Qed.

Lemma run_sched_keeps_whole_lines (sched : list nat) :
  forall (pool : list (prog Py.dict)) (w : Conc.world port)
         (flag : nat -> bool) (order : list nat),
    Pool.threads_at cmds pool flag ->
    NoDup order ->
    (forall j, In j order <-> j < List.length cmds /\ flag j = true) ->
    Conc.stream (Conc.trace w) = Pool.lines_of cmds order ->
    exists (flag' : nat -> bool) (order' : list nat),
      Pool.threads_at cmds (fst (Conc.run_sched d sched pool w)) flag'
      /\ NoDup order'
      /\ (forall j, In j order' <-> j < List.length cmds /\ flag' j = true)
      /\ Conc.stream (Conc.trace (snd (Conc.run_sched d sched pool w)))
         = Pool.lines_of cmds order'.
Proof.
  induction sched as [|i sched IH]; intros pool w flag order Hat Hnd Hin Hs.
  - exists flag, order. split; [assumption|]. split; [assumption|].
    split; assumption.
  - destruct (step_keeps_whole_lines i w Hat Hnd Hin Hs)
      as (flag1 & order1 & Hat1 & Hnd1 & Hin1 & Hs1).
    simpl. destruct (Conc.step d i pool w) as [pool1 w1].
    exact (IH pool1 w1 flag1 order1 Hat1 Hnd1 Hin1 Hs1).
Qed.

Lemma threads_at_start :
  Pool.threads_at cmds (map set_led cmds) (fun _ => false).
Proof.
  split; [apply length_map|].
  intros i c Hc. exists (set_led c). split; [|constructor].
  rewrite nth_error_map, Hc. reflexivity.
Qed.

End WholeLines.

End Pools.

(** X7: for any number of concurrent requests and any schedule of their
    calls on [ser], the octets that have reached the port are the whole lines
    of some of the requests, each request at most once, one line after the
    other; and when every request has returned they are the lines of all the
    requests in some order. *)
Theorem pool_stream_is_whole_lines (port : Type) (d : Driver port)
  (dev : port) (cmds : list LedCommand) (sched : list nat) :
  let result :=
    Conc.run_sched d sched (map set_led cmds) (Conc.fresh dev) in
  exists order : list nat,
    NoDup order
    /\ Forall (fun i => i < List.length cmds) order
    /\ Conc.stream (Conc.trace (snd result)) = Pool.lines_of cmds order
    /\ (Forall (fun p => exists r : Py.dict, p = Return r) (fst result) ->
        Permutation order (seq 0 (List.length cmds))).
Proof.
  intros result.
  destruct (@run_sched_keeps_whole_lines port d cmds sched
              (map set_led cmds) (Conc.fresh dev) (fun _ => false) []
              (threads_at_start cmds) (NoDup_nil nat))
    as (flag & order & [Hlen Hat] & Hnd & Hin & Hs).
  - intros j. simpl. split; [intros [] | intros [_ H]; discriminate H].
  - reflexivity.
  - fold result in Hlen, Hat, Hs.
    exists order. split; [assumption|]. split; [|split; [assumption|]].
    + apply Forall_forall. intros j Hj. apply Hin in Hj. tauto.
    + intros Hret. apply NoDup_Permutation;
        [assumption | apply seq_NoDup |].
      intros j. rewrite Hin, in_seq. split; [intros [H _]; lia|].
      intros [_ Hj]. simpl in Hj. split; [assumption|].
      destruct (nth_error cmds j) as [c|] eqn:Hc;
        [|apply nth_error_None in Hc; lia].
      destruct (Hat j c Hc) as (p & Hp & Hpt).
      rewrite Forall_forall in Hret.
      destruct (Hret p (nth_error_In _ _ Hp)) as [r ->].
      exact (at_point_returned Hpt).
Qed.

Lemma pool_stream_is_whole_lines_witness :
  let cmds := [{| state := 1 |}; {| state := 0 |}; {| state := 3 |}] in
  let result :=
    Conc.run_sched Sim.driver [2; 0; 1; 0; 2; 1] (map set_led cmds)
      (Conc.fresh (Sim.opened [] [] [])) in
  exists order : list nat,
    Conc.stream (Conc.trace (snd result)) = Pool.lines_of cmds order
    /\ Permutation order (seq 0 3).
Proof.
  intros cmds result.
  destruct (pool_stream_is_whole_lines Sim.driver (Sim.opened [] [] [])
              cmds [2; 0; 1; 0; 2; 1]) as (order & _ & _ & Hs & Hperm).
  exists order. split; [exact Hs|]. apply Hperm.
  vm_compute. repeat (constructor; [eexists; reflexivity|]). constructor.
Defined.

Section PoolThreads.

Variable port : Type.
Variable d : Driver port.

Lemma by_thread_snoc (j : nat) (tr : list Conc.event) (ev : Conc.event) :
  Pool.by_thread j (tr ++ [ev])
  = Pool.by_thread j tr
    ++ (if Nat.eqb (Conc.ev_thread ev) j then [ev] else []).
Proof.
  unfold Pool.by_thread. rewrite filter_app. simpl.
  destruct (Nat.eqb (Conc.ev_thread ev) j); reflexivity.
Qed.

(** A step of thread [i] adds nothing to the events of another thread. *)
Lemma step_thread_other (A : Type) (i j : nat) (p : prog A)
  (w : Conc.world port) :
  i <> j ->
  Pool.by_thread j (Conc.trace (snd (Conc.step_thread d i p w)))
  = Pool.by_thread j (Conc.trace w).
Proof.
  intros Hij. apply Nat.eqb_neq in Hij.
  destruct p as [a|e|data k|k]; simpl; try reflexivity.
  - destruct (drv_write d data (Conc.device w)) as [dev [e|n]]; simpl;
      rewrite by_thread_snoc; simpl; rewrite Hij; apply app_nil_r.
  - destruct (drv_flush d (Conc.device w)) as [dev [e|u]]; simpl;
      rewrite by_thread_snoc; simpl; rewrite Hij; apply app_nil_r.
Qed.

(** A step of thread [i] moves it along the body of its request. *)
Lemma step_thread_history (i : nat) (cmd : LedCommand) (p : prog Py.dict)
  (w : Conc.world port) :
  Pool.history cmd i p (Pool.by_thread i (Conc.trace w)) ->
  Pool.history cmd i (fst (Conc.step_thread d i p w))
    (Pool.by_thread i (Conc.trace (snd (Conc.step_thread d i p w))))
  /\ Pool.pending (fst (Conc.step_thread d i p w)) <= pred (Pool.pending p).
Proof.
  intros H. remember (Pool.by_thread i (Conc.trace w)) as h eqn:Hh.
  destruct H.
  - rewrite set_led_calls. simpl.
    destruct (drv_write d (wire_bytes cmd) (Conc.device w))
      as [dev [e|n]]; simpl; rewrite by_thread_snoc, <- Hh; simpl;
      rewrite Nat.eqb_refl; split; try constructor; lia.
  - simpl.
    destruct (drv_flush d (Conc.device w)) as [dev [e|u]]; simpl;
      rewrite by_thread_snoc, <- Hh; simpl;
      rewrite Nat.eqb_refl; split; try constructor.
  - simpl. rewrite <- Hh. split; constructor.
  - simpl. rewrite <- Hh. split; constructor.
  - simpl. rewrite <- Hh. split; constructor.
Qed.

Section OnePool.

Variable cmds : list LedCommand.

Lemma threads_history_start (dev : port) :
  Pool.threads_history cmds (map set_led cmds)
    (Conc.trace (Conc.fresh dev)).
Proof.
  split; [apply length_map|].
  intros i c Hc. exists (set_led c). split; [|constructor].
  rewrite nth_error_map, Hc. reflexivity.
Qed.

Lemma step_keeps_history (i : nat) (pool : list (prog Py.dict))
  (w : Conc.world port) :
  Pool.threads_history cmds pool (Conc.trace w) ->
  Pool.threads_history cmds (fst (Conc.step d i pool w))
    (Conc.trace (snd (Conc.step d i pool w))).
Proof.
  intros [Hlen Hat].
  destruct (nth_error pool i) as [p|] eqn:Hp.
  2:{ rewrite (@step_out_of_range _ d _ i pool w Hp). split; assumption. }
  rewrite (@step_scheduled _ d _ i pool w p Hp). simpl.
  assert (Hi : i < List.length pool) by (eapply nth_error_in_range; eauto).
  split; [rewrite replace_length; assumption|].
  intros j cj Hcj. destruct (Nat.eq_dec i j) as [<-|Hij].
  - destruct (Hat i cj Hcj) as (p0 & Hp0 & Hh).
    rewrite Hp in Hp0. injection Hp0 as <-.
    eexists. split; [apply nth_error_replace_same; assumption|].
    apply step_thread_history. assumption.
  - rewrite (nth_error_replace_other _ _ Hij).
    rewrite (@step_thread_other _ i j p w Hij). apply Hat. assumption.
Qed.

Lemma run_sched_keeps_history (sched : list nat) :
  forall (pool : list (prog Py.dict)) (w : Conc.world port),
    Pool.threads_history cmds pool (Conc.trace w) ->
    Pool.threads_history cmds (fst (Conc.run_sched d sched pool w))
      (Conc.trace (snd (Conc.run_sched d sched pool w))).
Proof.
  induction sched as [|i sched IH]; intros pool w H; [exact H|].
  simpl. pose proof (@step_keeps_history i pool w H) as H1.
  destruct (Conc.step d i pool w) as [pool1 w1]. exact (IH pool1 w1 H1).
Qed.

(** Threads that are scheduled often enough come to their end. *)
Lemma run_sched_runs_out (sched : list nat) :
  forall (pool : list (prog Py.dict)) (w : Conc.world port),
    Pool.threads_history cmds pool (Conc.trace w) ->
    (forall i p, nth_error pool i = Some p ->
                 Pool.pending p <= count_occ Nat.eq_dec sched i) ->
    forall i p,
      nth_error (fst (Conc.run_sched d sched pool w)) i = Some p ->
      Pool.pending p = 0.
Proof.
  induction sched as [|j sched IH]; intros pool w Hth Hpend i p Hp.
  - simpl in Hp. specialize (Hpend i p Hp). simpl in Hpend. lia.
  - simpl in Hp. pose proof (@step_keeps_history j pool w Hth) as Hth1.
    destruct (nth_error pool j) as [pj|] eqn:Hpj.
    + rewrite (@step_scheduled _ d _ j pool w pj Hpj) in Hp, Hth1.
      simpl in Hth1. apply (IH _ _ Hth1) with (i := i); [|exact Hp].
      assert (Hj : j < List.length pool)
        by (eapply nth_error_in_range; eauto).
      destruct Hth as [Hlen Hat].
      intros k q Hq. simpl in Hq. destruct (Nat.eq_dec j k) as [<-|Hjk].
      * rewrite (nth_error_replace_same _ _ Hj) in Hq. injection Hq as <-.
        destruct (nth_error cmds j) as [c|] eqn:Hc;
          [|apply nth_error_None in Hc; lia].
        destruct (Hat j c Hc) as (p0 & Hp0 & Hh).
        rewrite Hpj in Hp0. injection Hp0 as <-.
        pose proof (proj2 (@step_thread_history j c pj w Hh)) as Hdec.
        specialize (Hpend j pj Hpj).
        rewrite count_occ_cons_eq in Hpend by reflexivity. lia.
      * rewrite (nth_error_replace_other _ _ Hjk) in Hq.
        specialize (Hpend k q Hq).
        rewrite count_occ_cons_neq in Hpend by assumption. assumption.
    + rewrite (@step_out_of_range _ d _ j pool w Hpj) in Hp, Hth1.
      simpl in Hth1. apply (IH _ _ Hth1) with (i := i); [|exact Hp].
      intros k q Hq. simpl in Hq.
      assert (Hjk : j <> k) by (intros <-; congruence).
      specialize (Hpend k q Hq).
      rewrite count_occ_cons_neq in Hpend by assumption. assumption.
Qed.

End OnePool.

Lemma history_finished (cmd : LedCommand) (i : nat) (p : prog Py.dict)
  (h : list Conc.event) :
  Pool.history cmd i p h -> Pool.pending p = 0 -> Pool.finished cmd p.
Proof.
  intros H Hp. destruct H.
  - rewrite set_led_calls in Hp. discriminate Hp.
  - discriminate Hp.
  - left. reflexivity.
  - right. eexists. reflexivity.
  - right. eexists. reflexivity.
Qed.

Lemma history_length (cmd : LedCommand) (i : nat) (p : prog Py.dict)
  (h : list Conc.event) :
  Pool.history cmd i p h -> List.length h <= 2.
Proof.
  intros H. destruct H; simpl; lia.
Qed.

End PoolThreads.

(** X8: under any schedule, the calls thread [i] has made are a beginning of
    its own body: nothing, or the write of its line, or that write followed
    by its flush; the flush is there only after the write has succeeded, the
    thread has returned only after both have, and no thread makes a third
    call. *)
Theorem thread_events_follow_the_body (port : Type) (d : Driver port)
  (dev : port) (cmds : list LedCommand) (sched : list nat) (i : nat)
  (cmd : LedCommand) :
  nth_error cmds i = Some cmd ->
  let result :=
    Conc.run_sched d sched (map set_led cmds) (Conc.fresh dev) in
  exists p : prog Py.dict,
    nth_error (fst result) i = Some p
    /\ Pool.history cmd i p (Pool.by_thread i (Conc.trace (snd result)))
    /\ List.length (Pool.by_thread i (Conc.trace (snd result))) <= 2.
Proof.
  intros Hc result.
  destruct (@run_sched_keeps_history port d cmds sched (map set_led cmds)
              (Conc.fresh dev) (threads_history_start cmds dev))
    as [_ Hat].
  destruct (Hat i cmd Hc) as (p & Hp & Hh).
  exists p. split; [exact Hp|]. split; [exact Hh|].
  exact (history_length Hh).
Qed.

Lemma thread_events_follow_the_body_witness :
  let cmds := [{| state := 1 |}; {| state := 0 |}] in
  let result :=
    Conc.run_sched Sim.driver [1; 0; 1; 1; 1] (map set_led cmds)
      (Conc.fresh (Sim.opened [] [] [])) in
  exists p : prog Py.dict,
    nth_error (fst result) 1 = Some p
    /\ Pool.history {| state := 0 |} 1 p
         (Pool.by_thread 1 (Conc.trace (snd result)))
    /\ List.length (Pool.by_thread 1 (Conc.trace (snd result))) <= 2.
Proof.
  intros cmds result.
  exact (@thread_events_follow_the_body _ Sim.driver (Sim.opened [] [] [])
           cmds [1; 0; 1; 1; 1] 1 {| state := 0 |} eq_refl).
Defined.

(** X9: no request waits for another: under any schedule that gives each
    thread at least two steps, every request has come to its end, with its
    acknowledgement or with an exception. *)
Theorem fair_schedule_finishes (port : Type) (d : Driver port) (dev : port)
  (cmds : list LedCommand) (sched : list nat) :
  (forall i, i < List.length cmds -> 2 <= count_occ Nat.eq_dec sched i) ->
  forall (i : nat) (cmd : LedCommand),
    nth_error cmds i = Some cmd ->
    exists p : prog Py.dict,
      nth_error
        (fst (Conc.run_sched d sched (map set_led cmds) (Conc.fresh dev))) i
      = Some p
      /\ Pool.finished cmd p.
Proof.
  intros Hfair i cmd Hc.
  pose proof (threads_history_start cmds dev) as H0.
  destruct (@run_sched_keeps_history port d cmds sched (map set_led cmds)
              (Conc.fresh dev) H0) as [_ Hat].
  destruct (Hat i cmd Hc) as (p & Hp & Hh).
  exists p. split; [exact Hp|].
  apply (history_finished Hh).
  apply (@run_sched_runs_out port d cmds sched (map set_led cmds)
           (Conc.fresh dev) H0) with (i := i); [|exact Hp].
  intros k q Hq.
  rewrite nth_error_map in Hq.
  destruct (nth_error cmds k) as [c|] eqn:Hk; [|discriminate Hq].
  injection Hq as <-. rewrite set_led_calls. simpl.
  apply Hfair. eapply nth_error_in_range; eauto.
Qed.

Lemma fair_schedule_finishes_witness :
  exists p : prog Py.dict,
    nth_error
      (fst (Conc.run_sched Sim.driver [0; 1; 1; 0]
              (map set_led [{| state := 1 |}; {| state := 0 |}])
              (Conc.fresh (Sim.opened [] [] [])))) 0
    = Some p
    /\ Pool.finished {| state := 1 |} p.
Proof.
  apply (@fair_schedule_finishes _ Sim.driver (Sim.opened [] [] [])
           [{| state := 1 |}; {| state := 0 |}] [0; 1; 1; 0]);
    [|reflexivity].
  intros i Hi. simpl in Hi.
  destruct i as [|[|i]]; [simpl; lia | simpl; lia | lia].
Defined.

(** A schedule that gives a thread one step only leaves it before its
    flush: two steps are needed. *)
Example one_step_is_not_enough :
  nth_error
    (fst (Conc.run_sched Sim.driver [0]
            (map set_led [{| state := 1 |}])
            (Conc.fresh (Sim.opened [] [] [])))) 0
  = Some (SerFlush (Return (acknowledgement {| state := 1 |}))).
Proof. reflexivity. Qed.

Lemma list_sum_replace (A : Type) (f : A -> nat) (i : nat) (x y : A)
  (l : list A) :
  nth_error l i = Some x ->
  list_sum (map f (Conc.replace i y l)) + f x = list_sum (map f l) + f y.
Proof.
  revert i. induction l as [|z l IH]; intros [|i] H; simpl in *;
    try discriminate H.
  - injection H as ->. lia.
  - specialize (IH i H). lia.
Qed.

Lemma pending_at_start (cmds : list LedCommand) :
  list_sum (map (@Pool.pending Py.dict) (map set_led cmds))
  = 2 * List.length cmds.
Proof.
  induction cmds as [|c cmds IH]; [reflexivity|].
  simpl map. rewrite set_led_calls. simpl. simpl in IH. lia.
Qed.

Section CallBudget.

Variable port : Type.
Variable d : Driver port.
Variable cmds : list LedCommand.

(** A step of a thread inside [set_led] that adds an event uses up one of
    the calls the thread has left. *)
Lemma step_thread_budget (i : nat) (cmd : LedCommand) (p : prog Py.dict)
  (h : list Conc.event) (w : Conc.world port) :
  Pool.history cmd i p h ->
  List.length (Conc.trace (snd (Conc.step_thread d i p w)))
  + Pool.pending (fst (Conc.step_thread d i p w))
  <= List.length (Conc.trace w) + Pool.pending p.
Proof.
  intros H. destruct H.
  - rewrite set_led_calls. simpl.
    destruct (drv_write d (wire_bytes cmd) (Conc.device w))
      as [dev [e|n]]; simpl; rewrite length_app; simpl; lia.
  - simpl.
    destruct (drv_flush d (Conc.device w)) as [dev [e|u]]; simpl;
      rewrite length_app; simpl; lia.
  - simpl. lia.
  - simpl. lia.
  - simpl. lia.
Qed.

Lemma run_sched_budget (sched : list nat) :
  forall (pool : list (prog Py.dict)) (w : Conc.world port),
    Pool.threads_history cmds pool (Conc.trace w) ->
    List.length (Conc.trace (snd (Conc.run_sched d sched pool w)))
    + list_sum (map (@Pool.pending Py.dict)
                  (fst (Conc.run_sched d sched pool w)))
    <= List.length (Conc.trace w)
       + list_sum (map (@Pool.pending Py.dict) pool).
Proof.
  induction sched as [|j sched IH]; intros pool w Hth; [simpl; lia|].
  simpl. pose proof (@step_keeps_history port d cmds j pool w Hth) as Hth1.
  destruct (nth_error pool j) as [pj|] eqn:Hpj.
  - rewrite (@step_scheduled _ d _ j pool w pj Hpj) in Hth1 |- *.
    simpl in Hth1. specialize (IH _ _ Hth1).
    assert (Hj : j < List.length pool)
      by (eapply nth_error_in_range; eauto).
    destruct Hth as [Hlen Hat].
    destruct (nth_error cmds j) as [c|] eqn:Hc;
      [|apply nth_error_None in Hc; lia].
    destruct (Hat j c Hc) as (p0 & Hp0 & Hh).
    rewrite Hpj in Hp0. injection Hp0 as <-.
    pose proof (@step_thread_budget j c pj _ w Hh) as Hstep.
    pose proof (@list_sum_replace _ (@Pool.pending Py.dict) j pj
                  (fst (Conc.step_thread d j pj w)) pool Hpj) as Hsum.
    lia.
  - rewrite (@step_out_of_range _ d _ j pool w Hpj) in Hth1 |- *.
    simpl in Hth1. exact (IH _ _ Hth1).
Qed.

End CallBudget.

(** X10: however long the schedule and whatever the port does, a pool of [n]
    requests makes at most [2 * n] calls on the port: no call is ever made
    again. *)
Theorem pool_makes_at_most_two_calls_each (port : Type) (d : Driver port)
  (dev : port) (cmds : list LedCommand) (sched : list nat) :
  List.length
    (Conc.trace
       (snd (Conc.run_sched d sched (map set_led cmds) (Conc.fresh dev))))
  <= 2 * List.length cmds.
Proof.
  pose proof (@run_sched_budget port d cmds sched (map set_led cmds)
                (Conc.fresh dev) (threads_history_start cmds dev)) as H.
  rewrite pending_at_start in H. simpl in H. lia.
Qed.

(** ** One request after the other, as a schedule *)

Lemma nth_error_middle (A : Type) (done rest : list A) (x : A) :
  nth_error (done ++ x :: rest) (List.length done) = Some x.
Proof.
  induction done as [|y done IH]; simpl; [reflexivity | exact IH].
Qed.

Lemma replace_middle (A : Type) (done rest : list A) (x y : A) :
  Conc.replace (List.length done) y (done ++ x :: rest) = done ++ y :: rest.
Proof.
  induction done as [|z done IH]; simpl; [reflexivity|].
  rewrite IH. reflexivity.
Qed.

Lemma one_by_one_next (first n : nat) :
  Pool.one_by_one first (S n)
  = first :: first :: Pool.one_by_one (S first) n.
Proof. reflexivity. Qed.

Section OneByOne.

Variable port : Type.
Variable d : Driver port.

Lemma run_sched_next (A : Type) (i : nat) (sched : list nat)
  (pool : list (prog A)) (w : Conc.world port) :
  Conc.run_sched d (i :: sched) pool w
  = Conc.run_sched d sched (fst (Conc.step d i pool w))
      (snd (Conc.step d i pool w)).
Proof.
  simpl. destruct (Conc.step d i pool w). reflexivity.
Qed.

Lemma serve_next (cmd : LedCommand) (rest : list LedCommand)
  (w : world port) :
  serve d (cmd :: rest) w
  = (fst (serve d rest (fst (run d (set_led cmd) w))),
     snd (run d (set_led cmd) w)
     :: snd (serve d rest (fst (run d (set_led cmd) w)))).
Proof.
  simpl. destruct (run d (set_led cmd) w) as [w1 r].
  simpl. destruct (serve d rest w1). reflexivity.
Qed.

(** Two steps of a thread at the start of [set_led], with no other thread in
    between, are one sequential run of [set_led]. *)
Lemma two_steps_are_a_run (i : nat) (cmd : LedCommand)
  (cw : Conc.world port) (sw : world port) :
  Conc.device cw = device sw ->
  map Conc.ev_call (Conc.trace cw) = calls sw ->
  Pool.quiescent (Conc.trace cw) ->
  let s1 := Conc.step_thread d i (set_led cmd) cw in
  let s2 := Conc.step_thread d i (fst s1) (snd s1) in
  let r := run d (set_led cmd) sw in
  fst s2 = eval (snd r)
  /\ Conc.device (snd s2) = device (fst r)
  /\ map Conc.ev_call (Conc.trace (snd s2)) = calls (fst r)
  /\ Pool.quiescent (Conc.trace (snd s2)).
Proof.
  intros Hdev Hcalls Hq. rewrite run_set_led, set_led_calls. simpl.
  rewrite Hdev.
  destruct (drv_write d (wire_bytes cmd) (device sw)) as [dev1 [e|n]]; simpl.
  - split; [reflexivity|]. split; [reflexivity|]. split.
    + rewrite map_app, Hcalls. reflexivity.
    + intros rest. rewrite <- app_assoc, Hq. reflexivity.
  - destruct (drv_flush d dev1) as [dev2 [e|u]]; simpl;
      (split; [reflexivity|]); (split; [reflexivity|]); split.
    + rewrite !map_app, Hcalls. reflexivity.
    + intros rest. rewrite <- !app_assoc, Hq. simpl.
      rewrite Nat.eqb_refl. reflexivity.
    + rewrite !map_app, Hcalls. reflexivity.
    + intros rest. rewrite <- !app_assoc, Hq. simpl.
      rewrite Nat.eqb_refl. reflexivity.
Qed.

Lemma one_by_one_serves (cmds : list LedCommand) :
  forall (done : list (prog Py.dict)) (cw : Conc.world port)
         (sw : world port),
    Conc.device cw = device sw ->
    map Conc.ev_call (Conc.trace cw) = calls sw ->
    Pool.quiescent (Conc.trace cw) ->
    let conc :=
      Conc.run_sched d
        (Pool.one_by_one (List.length done) (List.length cmds))
        (done ++ map set_led cmds) cw in
    let sq := serve d cmds sw in
    fst conc = done ++ map eval (snd sq)
    /\ Conc.device (snd conc) = device (fst sq)
    /\ map Conc.ev_call (Conc.trace (snd conc)) = calls (fst sq)
    /\ Pool.quiescent (Conc.trace (snd conc)).
Proof.
  induction cmds as [|cmd rest IH]; intros done cw sw Hdev Hcalls Hq.
  - simpl. repeat split; assumption.
  - cbv zeta. rewrite serve_next. simpl List.length. simpl map.
    rewrite one_by_one_next, !run_sched_next.
    rewrite (@step_scheduled _ d _ (List.length done)
               (done ++ set_led cmd :: map set_led rest) cw (set_led cmd)
               (nth_error_middle done _ _)).
    simpl fst. simpl snd. rewrite replace_middle.
    rewrite (@step_scheduled _ d _ (List.length done) _ _ _
               (nth_error_middle done _ _)).
    simpl fst. simpl snd. rewrite replace_middle.
    destruct (@two_steps_are_a_run (List.length done) cmd cw sw Hdev Hcalls
                Hq)
      as (Hp & Hdev' & Hcalls' & Hq').
    cbv zeta in Hp, Hdev', Hcalls', Hq'.
    rewrite Hp.
    specialize (IH (done ++ [eval (snd (run d (set_led cmd) sw))]) _ _
                  Hdev' Hcalls' Hq').
    cbv zeta in IH.
    rewrite length_app, Nat.add_1_r, <- app_assoc in IH. simpl app in IH.
    destruct IH as (H1 & H2 & H3 & H4).
    rewrite H1, <- app_assoc. split; [reflexivity|].
    repeat split; assumption.
Qed.

End OneByOne.

(** X11: scheduling the requests of a pool one after the other, each for its
    two steps, is serving them in turn: every thread ends as its request ends
    when served, the port is left in the same state, the same calls are made
    in the same order, and this schedule is mutually exclusive. *)
Theorem one_by_one_schedule_is_serve (port : Type) (d : Driver port)
  (dev : port) (cmds : list LedCommand) :
  let conc :=
    Conc.run_sched d (Pool.one_by_one 0 (List.length cmds))
      (map set_led cmds) (Conc.fresh dev) in
  let sq := serve d cmds {| device := dev; calls := [] |} in
  fst conc = map eval (snd sq)
  /\ Conc.device (snd conc) = device (fst sq)
  /\ map Conc.ev_call (Conc.trace (snd conc)) = calls (fst sq)
  /\ Conc.mutually_exclusive (Conc.trace (snd conc)) = true.
Proof.
  intros conc sq.
  destruct (@one_by_one_serves port d cmds [] (Conc.fresh dev)
              {| device := dev; calls := [] |} eq_refl eq_refl)
    as (H1 & H2 & H3 & H4).
  - intros rest. reflexivity.
  - fold conc in H1, H2, H3, H4. fold sq in H1, H2, H3.
    repeat split; try assumption.
    unfold Conc.mutually_exclusive.
    rewrite <- (app_nil_r (Conc.trace (snd conc))). apply H4.
Qed.
